(** * gdal_viirs: swath-to-grid reprojection and derived NDVI products

    A shallow embedding of [gdal_viirs/process.py], of the batch driver
    [gdal_viirs/hl/ViirsProcessor.py] and of the legend of the NDVI-dynamics
    map ([gdal_viirs/maps/ndvi_dynamics.py]), with the properties of the
    design document stated and settled against it, followed by further
    properties of the code.

    Modelling conventions.
    - numpy arrays are lists in row-major (C) order; a 2-D array that is
      indexed by cell carries its shape ([ndarray]).  The rasters read from
      the files are kept flattened: rasters of one size count as rasters of
      one shape.
    - numpy floats are [float]: a finite value is an exact rational, next to
      the three IEEE special values.  Rounding error, overflow and the sign of
      zero are outside the model; the special values and the comparison rules
      for NaN, on which the sentinel logic of the products rests, are inside.
    - numpy integers are int64, kept in [Z]: a conversion from a float
      without an int64 counterpart yields the smallest int64 (as on x86-64),
      and arithmetic on the index arrays wraps around ([wrap64]).
    - a Python exception is a value of [exn]; code that may raise returns a
      [result].
    - the batch driver threads its object ([processor]) through its methods;
      the log records and the calls to the processing functions are kept in
      a trace. *)

From Stdlib Require Import ZArith QArith Qround Lia Lqa Bool.
From stdpp Require Import base option list strings gmap.

Open Scope Z_scope.

(** ** Exceptions and results *)

Inductive exn :=
  | AssertionError
  | ValueError
  | IndexError
  | StopIteration
  | RasterioIOError
  | SubDatasetNotFound
  | InvalidData
  | CorruptedFile
  | ProcessingException.

Inductive result (A : Type) :=
  | Ok (a : A)
  | Err (e : exn).
Arguments Ok {A} a.
Arguments Err {A} e.

#[global] Instance exn_eq_dec : EqDecision exn.
Proof. solve_decision. Defined.

#[global] Instance result_ret : MRet result := fun A a => Ok a.
#[global] Instance result_bind : MBind result := fun A B f m =>
  match m with
  | Ok a => f a
  | Err e => Err e
  end.

(** [assert cond] *)
Definition py_assert (cond : bool) : result unit :=
  if cond then Ok tt else Err AssertionError.

(** ** Floating-point values *)

Inductive float :=
  | Fin (q : Q)
  | PInf
  | NInf
  | NaN.

Definition Qltb (a b : Q) : bool := negb (Qle_bool b a).

Definition of_int (z : Z) : float := Fin (inject_Z z).

Definition isnan (a : float) : bool :=
  match a with NaN => true | _ => false end.

Definition isfinite (a : float) : bool :=
  match a with Fin _ => true | _ => false end.

(** [a > b], [a < b], [a == b]: every comparison with NaN is false. *)
Definition fgt (a b : float) : bool :=
  match a, b with
  | NaN, _ | _, NaN => false
  | Fin x, Fin y => Qltb y x
  | PInf, PInf => false
  | PInf, _ => true
  | _, NInf => match a with NInf => false | _ => true end
  | _, _ => false
  end.

Definition flt (a b : float) : bool := fgt b a.

Definition feq (a b : float) : bool :=
  match a, b with
  | Fin x, Fin y => Qeq_bool x y
  | PInf, PInf | NInf, NInf => true
  | _, _ => false
  end.

Definition fneg (a : float) : float :=
  match a with
  | Fin x => Fin (- x)
  | PInf => NInf
  | NInf => PInf
  | NaN => NaN
  end.

Definition fadd (a b : float) : float :=
  match a, b with
  | NaN, _ | _, NaN => NaN
  | Fin x, Fin y => Fin (x + y)
  | PInf, NInf | NInf, PInf => NaN
  | PInf, _ | _, PInf => PInf
  | NInf, _ | _, NInf => NInf
  end.

Definition fsub (a b : float) : float := fadd a (fneg b).

(** An infinity times a finite value takes the sign of the product; times
    zero it is NaN. *)
Definition inf_signed (positive : bool) : float :=
  if positive then PInf else NInf.

Definition fmul (a b : float) : float :=
  match a, b with
  | NaN, _ | _, NaN => NaN
  | Fin x, Fin y => Fin (x * y)
  | Fin x, PInf | PInf, Fin x =>
      if Qeq_bool x 0 then NaN else inf_signed (Qltb 0 x)
  | Fin x, NInf | NInf, Fin x =>
      if Qeq_bool x 0 then NaN else inf_signed (Qltb x 0)
  | PInf, PInf | NInf, NInf => PInf
  | PInf, NInf | NInf, PInf => NInf
  end.

(** Division with numpy's error state left at its default (warn, do not
    raise): a finite nonzero value over zero is an infinity, 0/0 and inf/inf
    are NaN. *)
Definition fdiv (a b : float) : float :=
  match a, b with
  | NaN, _ | _, NaN => NaN
  | Fin x, Fin y =>
      if Qeq_bool y 0
      then (if Qeq_bool x 0 then NaN else inf_signed (Qltb 0 x))
      else Fin (x / y)
  | Fin _, _ => Fin 0
  | PInf, Fin y => inf_signed (Qle_bool 0 y)
  | NInf, Fin y => inf_signed (Qltb y 0)
  | _, _ => NaN
  end.

(** [np.round]: to the nearest integer, ties to the even one. *)
Definition round_half_even (q : Q) : Z :=
  let f := Qfloor q in
  match Qcompare (q - inject_Z f) (1 # 2) with
  | Lt => f
  | Gt => f + 1
  | Eq => if Z.even f then f else f + 1
  end.

Definition np_round (a : float) : float :=
  match a with
  | Fin q => of_int (round_half_even q)
  | _ => a
  end.

(** [np.int_]: truncation towards zero, to int64.  A value without an int64
    counterpart (a non-finite one, or one beyond the range) converts to the
    "integer indefinite" value of x86-64, the smallest int64. *)
Definition int_indefinite : Z := - 2 ^ 63.
Definition int64_max : Z := 2 ^ 63 - 1.

Definition in_int64 (z : Z) : bool := (int_indefinite <=? z) && (z <=? int64_max).

Definition np_int_ (a : float) : Z :=
  match a with
  | Fin q =>
      let z := if Qle_bool 0 q then Qfloor q else Qceiling q in
      if in_int64 z then z else int_indefinite
  | _ => int_indefinite
  end.

(** int64 arithmetic: a result beyond the range wraps around. *)
Definition wrap64 (z : Z) : Z := (z + 2 ^ 63) mod 2 ^ 64 - 2 ^ 63.

(** ** numpy on lists *)

(** [a[mask]] for a boolean mask of the shape of [a].  The rasters are kept
    flattened, so that a mask of the size of [a] counts as one of its shape;
    a mask of another size raises IndexError. *)
Fixpoint mask_select {A} (mask : list bool) (a : list A) : list A :=
  match mask, a with
  | m :: mask, v :: a => if m then v :: mask_select mask a else mask_select mask a
  | _, _ => []
  end.

Definition getitem_mask {A} (a : list A) (mask : list bool) : result (list A) :=
  if decide (length mask = length a) then Ok (mask_select mask a) else Err IndexError.

(** [a.min()] and [a.max()]: a reduction of an empty array raises ValueError. *)
Definition np_min (a : list Z) : result Z :=
  match a with
  | [] => Err ValueError
  | v :: a => Ok (fold_left Z.min a v)
  end.

Definition np_max (a : list Z) : result Z :=
  match a with
  | [] => Err ValueError
  | v :: a => Ok (fold_left Z.max a v)
  end.

(** ** GeolocationIndexer: [process_geoloc_file] *)

Record ProcessedGeolocFile := {
  x_index : list Z;
  y_index : list Z;
  lonlat_mask : list bool;
  geotransform_max_y : Z;
  geotransform_min_x : Z;
  scale : Q;
  out_image_shape : Z * Z
}.

(** [(lon > -200) * (lat > -200)] *)
Definition valid_sample (lo la : float) : bool :=
  fgt lo (Fin (-200)) && fgt la (Fin (-200)).

Section GeolocationIndexer.

(** The planar projection [pyproj.Proj(proj or PROJ_LCC)], which maps one
    (lon, lat) sample to one (x, y) point; out-of-domain samples come back
    as infinities.  The projection handle kept in the result is not
    modelled. *)
Variable proj_point : float -> float -> float * float.

Definition projection (lon lat : list float) : list float * list float :=
  let pts := zip_with proj_point lon lat in (pts.*1, pts.*2).

(** The two coordinate arrays on which [process_geoloc_file] runs its
    assertions: the projection of the samples that the validity mask
    selects. *)
Definition projected (lat lon : list float) : list float * list float :=
  let mask := zip_with valid_sample lon lat in
  projection (mask_select mask lon) (mask_select mask lat).

(** [lat] and [lon] are what [read(1)] returns for the Latitude and
    Longitude sub-datasets, flattened; the lines before (descriptor check,
    opening the file, finding the sub-datasets) are [read_geoloc] below.
    Rasters of one size count as rasters of one shape.  Rasters of different
    sizes are combined as numpy combines 1-D arrays: a single sample is
    broadcast, and the mask then fails to index it (IndexError); otherwise
    the comparison itself raises ValueError.  The index arrays are int64:
    [-=] and [+ 1] wrap around. *)
Definition process_geoloc_file (lat lon : list float) (scale : Q)
  : result ProcessedGeolocFile :=
  (* (lon > -200) * (lat > -200) *)
  if decide (length lon = length lat) then
    let lonlat_mask := zip_with valid_sample lon lat in
    lat_masked ← getitem_mask lat lonlat_mask;
    lon_masked ← getitem_mask lon lonlat_mask;
    let '(x, y) := projection lon_masked lat_masked in
    _ ← py_assert (bool_decide (length x = length y));
    _ ← py_assert (forallb isfinite x);
    (* the source tests x_index a second time here, not y_index *)
    _ ← py_assert (forallb isfinite x);
    let x_index := (fun v => np_int_ (np_round v)) <$> x in
    let y_index := (fun v => np_int_ (np_round v)) <$> y in
    x_min ← np_min x_index;
    y_max ← np_max y_index;
    let x_index :=
      (fun v => np_int_ (np_round (fdiv (of_int v) (Fin scale)))) <$> x_index in
    let y_index :=
      (fun v => np_int_ (np_round (fdiv (of_int v) (Fin scale)))) <$> y_index in
    x0 ← np_min x_index;
    let x_index := (fun v => wrap64 (v - x0)) <$> x_index in
    y0 ← np_min y_index;
    let y_index := (fun v => wrap64 (v - y0)) <$> y_index in
    y_top ← np_max y_index;
    x_top ← np_max x_index;
    Ok {| x_index := x_index;
          y_index := y_index;
          lonlat_mask := lonlat_mask;
          geotransform_max_y := y_max;
          geotransform_min_x := x_min;
          scale := scale;
          out_image_shape := (wrap64 (y_top + 1), wrap64 (x_top + 1)) |}
  else if decide (length lon = 1%nat ∨ length lat = 1%nat) then Err IndexError
  else Err ValueError.

End GeolocationIndexer.

(** The column (or row) that a projected coordinate gets before the indices
    are shifted to start at 0. *)
Definition raw_index (scale : Q) (v : float) : Z :=
  np_int_ (np_round (fdiv (of_int (np_int_ (np_round v))) (Fin scale))).

(** The distance between the largest and the smallest of these indices along
    one axis.  Below 2^63 - 1 the shift to zero and the size of the grid stay
    within int64. *)
Definition index_spread (scale : Q) (coords : list float) : Z :=
  match np_max (raw_index scale <$> coords), np_min (raw_index scale <$> coords) with
  | Ok hi, Ok lo => hi - lo
  | _, _ => 0
  end.

(** A coordinate that is finite and whose two conversions to int64, of the
    rounded coordinate and of its quotient by the scale, stay within the
    range. *)
Definition indexable (scale : Q) (v : float) : bool :=
  match v with
  | Fin q =>
      in_int64 (round_half_even q)
      && in_int64 (round_half_even (inject_Z (round_half_even q) / scale))
  | _ => false
  end.

(** A stand-in for the projection in the examples below: a cylindrical
    projection with 100 km to the degree.  As with pyproj, a latitude outside
    [-90, 90] comes back as (inf, inf); the poles themselves lie at infinity
    on the y axis only. *)
Definition cylindrical (lo la : float) : float * float :=
  match lo, la with
  | Fin x, Fin y =>
      if Qltb 90 y || Qltb y (-90) then (PInf, PInf)
      else if Qeq_bool y 90 then (Fin (x * 100000), PInf)
      else if Qeq_bool y (-90) then (Fin (x * 100000), NInf)
      else (Fin (x * 100000), Fin (y * 100000))
  | _, _ => (NaN, NaN)
  end.

(** Coordinates that are planar already, in metres. *)
Definition planar (x y : float) : float * float := (x, y).

(** ** BandRasterizer: [process_band_file] *)

(** A 2-D float32 array: its shape (rows, columns) and its cells in row-major
    order. *)
Record ndarray := {
  shape : nat * nat;
  data : list float
}.

Definition np_full (shp : nat * nat) (v : float) : ndarray :=
  {| shape := shp; data := replicate (shp.1 * shp.2) v |}.

Definition np_zeros (shp : nat * nat) : ndarray := np_full shp (Fin 0).

(** [a[r, c]] for in-range, non-negative [r] and [c]. *)
Definition cell (a : ndarray) (r c : nat) : option float :=
  if decide (r < (shape a).1 ∧ c < (shape a).2)%nat
  then data a !! (r * (shape a).2 + c)%nat
  else None.

(** An integer index along an axis of length [n]: a negative index counts
    from the end, an index outside [-n, n) raises IndexError. *)
Definition norm_index (n : nat) (i : Z) : result nat :=
  if decide (0 <= i < Z.of_nat n) then Ok (Z.to_nat i)
  else if decide (- Z.of_nat n <= i < 0) then Ok (Z.to_nat (i + Z.of_nat n))
  else Err IndexError.

(** [image[ys, xs] = vals] with integer index arrays: the samples are written
    one after the other, in the order of the index arrays. *)
Fixpoint setitem_index (image : ndarray) (ys xs : list Z) (vals : list float)
  : result ndarray :=
  match ys, xs, vals with
  | [], [], [] => Ok image
  | y :: ys, x :: xs, v :: vals =>
      r ← norm_index (shape image).1 y;
      c ← norm_index (shape image).2 x;
      setitem_index
        {| shape := shape image;
           data := <[(r * (shape image).2 + c)%nat := v]> (data image) |}
        ys xs vals
  | _, _, _ => Err IndexError
  end.

(** A well-formed array has one cell per position of its shape. *)
Definition well_shaped (a : ndarray) : Prop :=
  length (data a) = ((shape a).1 * (shape a).2)%nat.

(** Sample [k] of the index arrays [ys], [xs] is written to cell ([r], [c])
    of an array of shape [shp]. *)
Definition targets (shp : nat * nat) (ys xs : list Z) (k r c : nat) : Prop :=
  ∃ y x, ys !! k = Some y ∧ xs !! k = Some x ∧
         norm_index shp.1 y = Ok r ∧ norm_index shp.2 x = Ok c.

(** [a[mask] = f(a[mask])] for a mask of the shape of [a]; with a constant
    [f] this is [a[mask] = v]. *)
Definition assign_where (mask : list bool) (f : float -> float) (a : list float)
  : list float :=
  zip_with (fun (m : bool) v => if m then f v else v) mask a.

Definition setitem_mask (a : list float) (mask : list bool) (v : float)
  : result (list float) :=
  if decide (length mask = length a)
  then Ok (assign_where mask (fun _ => v) a)
  else Err IndexError.

Definition on_data (f : list float -> list float) (a : ndarray) : ndarray :=
  {| shape := shape a; data := f (data a) |}.

(** [np.flip(image, 0)]: the rows in reverse order. *)
Fixpoint rows_of (h w : nat) (d : list float) : list (list float) :=
  match h with
  | O => []
  | S h => take w d :: rows_of h w (drop w d)
  end.

Definition np_flip0 (a : ndarray) : ndarray :=
  on_data (fun d => concat (rev (rows_of (shape a).1 (shape a).2 d))) a.

(** What the raster and HDF5 readers find at [geofile.path]: the band
    sub-dataset named by [get_band_dataset()], the quality flags (BANDSDR)
    and the radiometric factors, each possibly absent.  What is there is
    taken to be readable: a sub-dataset that is listed and cannot be read
    makes the code raise where the model goes on. *)
Record BandFile := {
  dataset : option (list float);
  bandsdr : option (list float);
  factors : option (float * float)
}.

(** [file geofile = None]: the file cannot be opened. *)
Record GeofileInfo := {
  path : string;
  name : string;
  band : string;
  is_geoloc : bool;
  is_band : bool;
  file : option BandFile
}.

Definition _require_band_notimpl (info : GeofileInfo) : result unit :=
  if negb (is_band info) then Err AssertionError else Ok tt.

Definition or_raise {A} (o : option A) (e : exn) : result A :=
  match o with
  | Some a => Ok a
  | None => Err e
  end.

Section BandRasterizer.

(** The fill codes of [gdal_viirs.const]. *)
Variables ND_OBPT ND_NA : float.

(** [rasterio.fill.fillnodata(image, mask, smoothing_iterations,
    max_search_distance)]. *)
Variable fillnodata : ndarray -> list bool -> nat -> nat -> ndarray.

Definition _fill_nodata (arr : ndarray) (nd_value : float)
    (smoothing_iterations max_search_dist : nat) : ndarray :=
  fillnodata arr ((fun v => negb (feq v nd_value)) <$> data arr)
    smoothing_iterations max_search_dist.

Definition process_band_file (geofile : GeofileInfo)
    (geoloc_file : ProcessedGeolocFile) (no_data_threshold : float)
  : result ndarray :=
  _ ← _require_band_notimpl geofile;
  f ← or_raise (file geofile) RasterioIOError;
  arr ← or_raise (dataset f) SubDatasetNotFound;
  arr ← match bandsdr f with
        | Some sdr_mask =>
            setitem_mask arr ((fun v => fgt v (Fin 32)) <$> sdr_mask) ND_NA
        | None => Ok arr
        end;
  arr ← getitem_mask arr (lonlat_mask geoloc_file);
  let x_index := x_index geoloc_file in
  let y_index := y_index geoloc_file in
  _ ← py_assert (bool_decide (length x_index = length arr));
  _ ← py_assert (bool_decide (length y_index = length arr));
  let image_shape := out_image_shape geoloc_file in
  (* len(image_shape) == 2 holds of a pair *)
  _ ← py_assert (forallb (fun d => 1 <? d) [image_shape.1; image_shape.2]);
  let image :=
    np_zeros (Z.to_nat image_shape.1, Z.to_nat image_shape.2) in
  image ← setitem_index image y_index x_index arr;
  let image := np_flip0 image in
  let image :=
    on_data (fun d => assign_where ((fun v => feq v ND_OBPT) <$> d)
                        (fun _ => Fin 0) d) image in
  let image :=
    on_data (fun d => assign_where (isnan <$> d) (fun _ => Fin 0) d) image in
  let image := _fill_nodata image (Fin 0) 0 10 in
  let mask := (fun v => fgt v no_data_threshold) <$> data image in
  let image := on_data (assign_where mask (fun _ => NaN)) image in
  let image :=
    on_data (fun d => assign_where ((fun v => feq v (Fin 0)) <$> d)
                        (fun _ => NaN) d) image in
  Ok match factors f with
     | Some (d0, d1) =>
         let mask := negb <$> mask in
         let image := on_data (assign_where mask (fun v => fmul v d0)) image in
         on_data (assign_where mask (fun v => fadd v d1)) image
     | None => image
     end.

End BandRasterizer.

(** ** CompositeAssembler: [_process_band_files] *)

(** [np.array(arrays)]: band grids of one shape stacked along a new leading
    axis; the stack is kept as the sequence of its bands.  The grids that
    [process_band_file] makes for one index all have one shape.  What numpy
    makes of grids of different shapes depends on its version (a ValueError
    since 1.24, an array of objects before) and is not modelled. *)
Definition np_array (arrays : list ndarray) : list ndarray := arrays.

Definition is_None {A} (v : option A) : bool :=
  match v with
  | None => true
  | Some _ => false
  end.

Section CompositeAssembler.

(** The call [process_band_file(file, geoloc_file)].  The assembler depends
    on its outcome only: a grid, or an exception (which it catches). *)
Variable run_band : GeofileInfo -> ProcessedGeolocFile -> result ndarray.

Definition band_or_none (geoloc_file : ProcessedGeolocFile) (f : GeofileInfo)
  : option ndarray :=
  match run_band f geoloc_file with
  | Ok arr => Some arr
  | Err _ => None
  end.

Definition _process_band_files (geoloc_file : ProcessedGeolocFile)
    (files : list GeofileInfo) : result (list ndarray) :=
  _ ← py_assert (bool_decide (0 < length files)%nat);
  _ ← py_assert (bool_decide (length (remove_dups (band <$> files)) = 1%nat));
  let arrays := band_or_none geoloc_file <$> files in
  if forallb is_None arrays then Err ProcessingException
  else
    let shapes := shape <$> omap id arrays in
    (* assert len(set(v.shape ...)): true for any non-empty set *)
    _ ← py_assert (bool_decide (length (remove_dups shapes) ≠ 0%nat));
    shp ← or_raise (head shapes) StopIteration;
    Ok (np_array (default (np_full shp NaN) <$> arrays)).

End CompositeAssembler.

(** ** DerivedProductCalculator: NDVI and NDVI dynamics *)

(** An elementwise binary operation on rasters of one shape; rasters of
    different sizes raise ValueError (broadcasting, of a single sample for
    instance, is not modelled here). *)
Definition np_binop {A B C} (f : A -> B -> C) (a : list A) (b : list B)
  : result (list C) :=
  if decide (length a = length b) then Ok (zip_with f a b) else Err ValueError.

(** [ndvi = (svi02 - svi01) / (svi01 + svi02)] *)
Definition ndvi (svi01 svi02 : list float) : result (list float) :=
  num ← np_binop fsub svi02 svi01;
  den ← np_binop fadd svi01 svi02;
  np_binop fdiv num den.

(** The same for one pixel. *)
Definition ndvi_pixel (red nir : float) : float :=
  fdiv (fsub nir red) (fadd red nir).

(** [cloud_mask_file]: not given, given but [rasterio.open] raises, or
    opened, with the outcome of [cmf.read(1)]. *)
Inductive mask_file :=
  | NoMaskFile
  | MaskUnopenable (e : exn)
  | MaskOpened (band1 : result (list float)).

Section CloudMask.

(** [utility.apply_mask(ndvi, f.transform, mask, cmf.transform, -2)]: the
    cloud classes brought onto the NDVI grid and written as the sentinel;
    it may raise. *)
Variable apply_mask : list float -> list bool -> float -> result (list float).

(** [svi01] and [svi02] are bands 1 and 2 of the input composite; the value
    returned is the array written to the output file.  The cloud-mask file is
    opened outside the [try], so that a file that cannot be opened makes
    [process_ndvi] raise; what is raised inside, by [cmf.read(1)] or by
    [apply_mask], is logged and dropped. *)
Definition process_ndvi (svi01 svi02 : list float)
    (cloud_mask_file : mask_file) : result (list float) :=
  v ← ndvi svi01 svi02;
  match cloud_mask_file with
  | NoMaskFile => Ok v
  | MaskUnopenable e => Err e
  | MaskOpened band1 =>
      Ok match (cm ← band1;
                apply_mask v ((fun c => feq c (Fin 4)) <$> cm) (Fin (-2))) with
         | Ok masked => masked
         | Err _ => v
         end
  end.

End CloudMask.

Definition calc_ndvi_dynamics (b1 b2 : list float) : result (list float) :=
  diff ← np_binop fsub b2 b1;
  data ← np_binop fdiv (fmul (Fin 100) <$> diff) b1;
  let data :=
    assign_where ((fun v => fgt v (Fin 998)) <$> data) (fun _ => Fin 998) data in
  let data :=
    assign_where ((fun v => flt v (Fin (-998))) <$> data) (fun _ => Fin (-998)) data in
  Ok data.

(** What [calc_ndvi_dynamics] computes for one pixel. *)
Definition calc_pixel (b1 b2 : float) : float :=
  let d := fdiv (fmul (Fin 100) (fsub b2 b1)) b1 in
  let d := if fgt d (Fin 998) then Fin 998 else d in
  if flt d (Fin (-998)) then Fin (-998) else d.

(** [a[mask] = vals]: the selected cells take the values in order. *)
Fixpoint mask_assign (mask : list bool) (a vals : list float) : list float :=
  match mask, a with
  | true :: mask, x :: a =>
      match vals with
      | v :: vals => v :: mask_assign mask a vals
      | [] => x :: mask_assign mask a []
      end
  | false :: mask, x :: a => x :: mask_assign mask a vals
  | _, _ => a
  end.

Definition setitem_mask_array (a : list float) (mask : list bool)
    (vals : list float) : result (list float) :=
  if decide (length mask = length a) then
    if decide (length (filter (fun m => m = true) mask) = length vals)
    then Ok (mask_assign mask a vals)
    else Err ValueError
  else Err IndexError.

(** [b1_data] and [b2_data] are the two inputs as [utility.crop_intersection]
    returns them; the value returned is [b3], the array written out. *)
Definition process_ndvi_dynamics (b1_data b2_data : list float)
  : result (list float) :=
  nan_mask ← np_binop orb (isnan <$> b1_data) (isnan <$> b2_data);
  cloud_mask ← np_binop orb ((fun v => feq v (Fin (-2))) <$> b1_data)
                            ((fun v => feq v (Fin (-2))) <$> b2_data);
  data_mask ← np_binop andb (negb <$> nan_mask) (negb <$> cloud_mask);
  let b3 := replicate (length b1_data) NaN in
  sel1 ← getitem_mask b1_data data_mask;
  sel2 ← getitem_mask b2_data data_mask;
  vals ← calc_ndvi_dynamics sel1 sel2;
  b3 ← setitem_mask_array b3 data_mask vals;
  setitem_mask b3 cloud_mask (Fin (-999)).

(** The NDVI-dynamics value of one pixel in the words of the design document:
    -999 where either input is the cloud sentinel -2; elsewhere NaN where
    either input is NaN; elsewhere 100*(b2-b1)/b1 clamped to [-998, 998]. *)
Definition clamp (lo hi v : float) : float :=
  if fgt v hi then hi else if flt v lo then lo else v.

Definition dynamics_pixel_spec (b1 b2 : float) : float :=
  if feq b1 (Fin (-2)) || feq b2 (Fin (-2)) then Fin (-999)
  else if isnan b1 || isnan b2 then NaN
  else clamp (Fin (-998)) (Fin 998) (fdiv (fmul (Fin 100) (fsub b2 b1)) b1).

(** ** Batch driver: [ViirsProcessor.process_recent_files] *)

Record ViirsFileSet := {
  geoloc_file : GeofileInfo;
  band_files : list GeofileInfo
}.

(** Modelled from the spec: the persistence collaborator
    ([gdal_viirs.persistence.db.GDALViirsDB] is not among the sources), a
    store of the file sets already processed, keyed by the name of their
    geolocation file, and of metadata values. *)
Record GDALViirsDB := {
  filesets : gset string;
  meta : gmap string Q
}.

Definition fileset_key (fileset : ViirsFileSet) : string :=
  name (geoloc_file fileset).

Definition has_fileset (db : GDALViirsDB) (fileset : ViirsFileSet) : bool :=
  bool_decide (fileset_key fileset ∈ filesets db).

Definition add_fileset (fileset : ViirsFileSet) (db : GDALViirsDB) : GDALViirsDB :=
  {| filesets := {[fileset_key fileset]} ∪ filesets db; meta := meta db |}.

Definition set_meta (key : string) (value : Q) (db : GDALViirsDB) : GDALViirsDB :=
  {| filesets := filesets db; meta := <[key := value]> (meta db) |}.

(** What a run leaves behind, in order: log records and the calls made to the
    processing functions. *)
Inductive event :=
  | LogFound (n : nat)
  | LogNothingFound
  | LogAlreadyPresent (geoloc_name : string)
  | LogException (e : exn)
  | CallProcessFilesetOut (fileset : ViirsFileSet)
  | CallProcessNdvi (fileset : ViirsFileSet).

Record processor := {
  persistence : GDALViirsDB;
  trace : list event
}.

Definition emit (ev : event) (self : processor) : processor :=
  {| persistence := persistence self; trace := trace self ++ [ev] |}.

Definition on_persistence (f : GDALViirsDB -> GDALViirsDB) (self : processor)
  : processor :=
  {| persistence := f (persistence self); trace := trace self |}.

(** The NDVI step of [_process_fileset]: the composite cannot be opened,
    and [process_ndvi] is not called; or it is opened and [process_ndvi] is
    called, with its outcome. *)
Inductive ndvi_step :=
  | CompositeUnopenable (e : exn)
  | NdviCalled (outcome : result unit).

Section ViirsProcessor.

(** [process.process_fileset_out(fileset, out_dir, scale=scale)]: the path
    of the composite written, or an exception. *)
Variable process_fileset_out : ViirsFileSet -> result string.

(** [rasterio.open(processed)] followed by [process.process_ndvi]. *)
Variable ndvi_of_composite : string -> ViirsFileSet -> ndvi_step.

(** [self.find_filesets()]: the file sets found in the directories changed
    since the last check. *)
Variable find_filesets : GDALViirsDB -> list ViirsFileSet.

(** [datetime.now().timestamp()] *)
Variable now : Q.

Definition _set_last_check_time (self : processor) : processor :=
  on_persistence (set_meta "last_check_time" now) self.

(** A method returns the processor it leaves and, when it raised, the
    exception. *)
Definition _process_fileset (fileset : ViirsFileSet) (self : processor)
  : processor * option exn :=
  let self := emit (CallProcessFilesetOut fileset) self in
  match process_fileset_out fileset with
  | Err e => (self, Some e)
  | Ok processed =>
      let after_ndvi :=
        if bool_decide (band (geoloc_file fileset) = "I")
        then match ndvi_of_composite processed fileset with
             | CompositeUnopenable e => (self, Some e)
             | NdviCalled outcome =>
                 (emit (CallProcessNdvi fileset) self,
                  match outcome with
                  | Ok _ => None
                  | Err e => Some e
                  end)
             end
        else (self, None) in
      match after_ndvi with
      | (self, Some e) => (self, Some e)
      | (self, None) => (on_persistence (add_fileset fileset) self, None)
      end
  end.

(** The [for fileset in filesets] loop; [false] when it left through the
    [return] of the exception handler. *)
Fixpoint process_each (todo : list ViirsFileSet) (self : processor)
  : processor * bool :=
  match todo with
  | [] => (self, true)
  | fileset :: todo =>
      let self :=
        if has_fileset (persistence self) fileset
        then emit (LogAlreadyPresent (name (geoloc_file fileset))) self
        else self in
      match _process_fileset fileset self with
      | (self, None) => process_each todo self
      | (self, Some e) => (emit (LogException e) self, false)
      end
  end.

Definition process_recent_files (self : processor) : processor :=
  let found := find_filesets (persistence self) in
  let self :=
    if bool_decide (0 < length found)%nat
    then emit (LogFound (length found)) self
    else emit LogNothingFound self in
  match process_each found self with
  | (self, true) => _set_last_check_time self
  | (self, false) => self
  end.

(** The exception, if any, with which [_process_fileset] leaves. *)
Definition fileset_outcome (fileset : ViirsFileSet) : option exn :=
  match process_fileset_out fileset with
  | Err e => Some e
  | Ok processed =>
      if bool_decide (band (geoloc_file fileset) = "I")
      then match ndvi_of_composite processed fileset with
           | CompositeUnopenable e => Some e
           | NdviCalled (Ok _) => None
           | NdviCalled (Err e) => Some e
           end
      else None
  end.

(** The events of a run: what [process_recent_files] adds to the trace. *)
Definition run_events (self : processor) : list event :=
  drop (length (trace self)) (trace (process_recent_files self)).

End ViirsProcessor.

(** ** The indexer, the rasterizer and the pipeline in more detail *)

(** The samples that [process_band_file] scatters: the band sub-dataset with
    the flagged samples set to the fill code, under the validity mask. *)
Definition band_samples (ND_NA : float) (f : BandFile) (g : ProcessedGeolocFile)
  : result (list float) :=
  arr ← or_raise (dataset f) SubDatasetNotFound;
  arr ← match bandsdr f with
        | Some sdr_mask =>
            setitem_mask arr ((fun v => fgt v (Fin 32)) <$> sdr_mask) ND_NA
        | None => Ok arr
        end;
  getitem_mask arr (lonlat_mask g).

(** The radiometric correction of a count. *)
Definition corrected (f : BandFile) (v : float) : float :=
  match factors f with
  | Some (d0, d1) => fadd (fmul v d0) d1
  | None => v
  end.

(** What a cell of the filled image becomes: NaN above the threshold and at
    0, the corrected value otherwise. *)
Definition finished_cell (f : BandFile) (threshold c : float) : float :=
  if fgt c threshold || feq c (Fin 0) then NaN else corrected f c.

(** The scattered image on its way to the gap filler: flipped, with the
    fill code and NaN set to 0. *)
Definition before_fill (ND_OBPT : float) (image : ndarray) : ndarray :=
  let image := np_flip0 image in
  let image :=
    on_data (fun d => assign_where ((fun v => feq v ND_OBPT) <$> d)
                        (fun _ => Fin 0) d) image in
  on_data (fun d => assign_where (isnan <$> d) (fun _ => Fin 0) d) image.

(** What holds whenever a band file is rasterized: conditions that
    [process_band_file] needs in order to return.  (They are not sufficient:
    the sizes that agree here have to be shapes that agree.) *)
Definition band_ready (geofile : GeofileInfo) (g : ProcessedGeolocFile) : Prop :=
  is_band geofile = true ∧
  ∃ f arr,
    file geofile = Some f ∧ dataset f = Some arr ∧
    (∀ sdr, bandsdr f = Some sdr → length sdr = length arr) ∧
    length (lonlat_mask g) = length arr ∧
    length (x_index g) = length (filter (fun m => m = true) (lonlat_mask g)) ∧
    length (y_index g) = length (filter (fun m => m = true) (lonlat_mask g)) ∧
    1 < (out_image_shape g).1 ∧ 1 < (out_image_shape g).2 ∧
    Forall (fun y => - (out_image_shape g).1 <= y < (out_image_shape g).1) (y_index g) ∧
    Forall (fun x => - (out_image_shape g).2 <= x < (out_image_shape g).2) (x_index g).

(** A sub-dataset of a file: not listed among [f.subdatasets], listed but
    not readable, or read. *)
Inductive subdataset :=
  | Absent
  | Unreadable
  | Band1 (values : list float).

(** What the raster reader finds at the path of a geolocation file: its
    Latitude and Longitude sub-datasets. *)
Record GeolocFile := {
  latitude : subdataset;
  longitude : subdataset
}.

(** [next(ds for ds in f.subdatasets if ds.endswith(...))] under the
    handler that turns StopIteration into SubDatasetNotFound. *)
Definition find_subdataset (ds : subdataset) : result subdataset :=
  match ds with
  | Absent => Err SubDatasetNotFound
  | _ => Ok ds
  end.

(** [rasterio.open(ds)] followed by [read(1)]. *)
Definition read_subdataset (ds : subdataset) : result (list float) :=
  match ds with
  | Band1 values => Ok values
  | _ => Err RasterioIOError
  end.

(** The head of [process_geoloc_file]: the descriptor check, the search for
    the two sub-datasets and their reading.  [None] stands for a file that
    cannot be opened. *)
Definition read_geoloc (geofile : GeofileInfo) (contents : option GeolocFile)
  : result (list float * list float) :=
  _ ← py_assert (is_geoloc geofile);
  f ← or_raise contents RasterioIOError;
  lat_dataset ← find_subdataset (latitude f);
  lon_dataset ← find_subdataset (longitude f);
  lat ← read_subdataset lat_dataset;
  lon ← read_subdataset lon_dataset;
  Ok (lat, lon).

(** [_try_open_fileset]: every band file and the geolocation file is opened
    once; a file that cannot be opened raises CorruptedFile. *)
Definition _try_open_fileset (fileset : ViirsFileSet) (contents : option GeolocFile)
  : result unit :=
  if forallb (fun b => bool_decide (is_Some (file b))) (band_files fileset)
     && bool_decide (is_Some contents)
  then Ok tt else Err CorruptedFile.

Section Pipeline.

Variable proj_point : float -> float -> float * float.
Variables ND_OBPT ND_NA : float.
Variable fillnodata : ndarray -> list bool -> nat -> nat -> ndarray.

(** [utility.trim_nodata(bands, transform)], as far as the data goes. *)
Variable trim_nodata : list ndarray -> list ndarray.

(** [process_band_file(file, geoloc_file)] with the default threshold. *)
Definition band_call (f : GeofileInfo) (g : ProcessedGeolocFile) : result ndarray :=
  process_band_file ND_OBPT ND_NA fillnodata f g (Fin 60000).

(** [process_fileset], up to the data that is written out; the transform,
    the coordinate system and the writing itself belong to the raster I/O
    collaborator.  [contents] is what is found at the path of the
    geolocation file. *)
Definition process_fileset (fileset : ViirsFileSet) (contents : option GeolocFile)
    (scale : Q) (trim : bool) : result (list ndarray) :=
  if decide (length (band_files fileset) = 0%nat) then Err InvalidData
  else
    _ ← _try_open_fileset fileset contents;
    '(lat, lon) ← read_geoloc (geoloc_file fileset) contents;
    index ← process_geoloc_file proj_point lat lon scale;
    bands ← _process_band_files band_call index (band_files fileset);
    Ok (if trim then trim_nodata bands else bands).

End Pipeline.

(** ** The legend of the NDVI-dynamics map: [NDVIDynamicsMapBuilder] *)

Definition isinf (a : float) : bool :=
  match a with PInf | NInf => true | _ => false end.

(** [a >= b] *)
Definition fge (a b : float) : bool := fgt a b || feq a b.

(** [np.count_nonzero] of a mask *)
Definition count_nonzero (m : list bool) : nat :=
  length (filter (fun b => b = true) m).

Record legend_counts := {
  all_count : nat;
  clouds_count : nat;
  sign_degr_count : nat;
  degr_count : nat;
  min_change_count : nat;
  impr_count : nat;
  sign_impr_count : nat
}.

(** The counting part of [get_legend_handles]; [data] is what [file.read()]
    returns. *)
Definition count_legend (data : list float) : legend_counts :=
  let data_mask := (fun v => negb (isnan v)) <$> data in
  let all_count := count_nonzero data_mask in
  let clouds_count :=
    count_nonzero (zip_with andb (isinf <$> data) ((fun v => flt v (Fin 0)) <$> data)) in
  let data_mask := zip_with andb data_mask ((fun v => negb (isinf v)) <$> data) in
  {| all_count := all_count;
     clouds_count := clouds_count;
     sign_degr_count :=
       count_nonzero (zip_with andb data_mask ((fun v => flt v (Fin (-45))) <$> data));
     degr_count :=
       count_nonzero
         (zip_with andb
            (zip_with andb data_mask ((fun v => fge v (Fin (-45))) <$> data))
            ((fun v => flt v (Fin (-15))) <$> data));
     min_change_count :=
       count_nonzero
         (zip_with andb
            (zip_with andb data_mask ((fun v => fge v (Fin (-15))) <$> data))
            ((fun v => flt v (Fin 15)) <$> data));
     impr_count :=
       count_nonzero
         (zip_with andb
            (zip_with andb data_mask ((fun v => fge v (Fin 15)) <$> data))
            ((fun v => flt v (Fin 45)) <$> data));
     sign_impr_count :=
       count_nonzero (zip_with andb data_mask ((fun v => fge v (Fin 45)) <$> data)) |}.




(** ** The batch driver: discovery and reset *)

(** Modelled from the spec: the remaining operations of the persistence
    collaborator. *)
Definition get_meta (key : string) (dflt : Q) (db : GDALViirsDB) : Q :=
  from_option id dflt (meta db !! key).

Definition delete_meta (key : string) (db : GDALViirsDB) : GDALViirsDB :=
  {| filesets := filesets db; meta := delete key (meta db) |}.

Definition reset_filesets (db : GDALViirsDB) : GDALViirsDB :=
  {| filesets := ∅; meta := meta db |}.

(** [ViirsProcessor.reset] *)
Definition reset (self : processor) : processor :=
  on_persistence reset_filesets
    (on_persistence (delete_meta "last_check_time") self).

Section Discovery.

(** [self.search_dirs], as the list of directories it stands for. *)
Variable search_dirs : list string.

(** [os.path.expandvars(os.path.expanduser(d))] *)
Variable expand : string -> string.

(** [os.path.getmtime]; the directories are taken to exist. *)
Variable getmtime : string -> Q.

(** [utility.find_sdr_viirs_filesets(directory).values()] *)
Variable find_sdr_viirs_filesets : string -> list ViirsFileSet.

Definition _find_filesets (return_all : bool) (db : GDALViirsDB)
  : list ViirsFileSet :=
  let directories := expand <$> search_dirs in
  let directories :=
    if negb return_all then
      let last_check_ts := get_meta "last_check_time" 0 db in
      filter (fun directory => Is_true (Qle_bool last_check_ts (getmtime directory)))
        directories
    else directories in
  let found :=
    (fun directory => find_sdr_viirs_filesets (expand directory)) <$> directories in
  concat found.

Definition get_all_filesets (db : GDALViirsDB) : list ViirsFileSet :=
  _find_filesets true db.

Definition find_filesets (db : GDALViirsDB) : list ViirsFileSet :=
  _find_filesets false db.

End Discovery.

Section RunEvents.

Variable process_fileset_out : ViirsFileSet -> result string.
Variable ndvi_of_composite : string -> ViirsFileSet -> ndvi_step.

(** An event that a run can add on behalf of file set [f]. *)
Definition event_of (f : ViirsFileSet) (ev : event) : Prop :=
  ev = LogAlreadyPresent (name (geoloc_file f)) ∨
  ev = CallProcessFilesetOut f ∨
  (ev = CallProcessNdvi f ∧ band (geoloc_file f) = "I" ∧
   ∃ processed, process_fileset_out f = Ok processed) ∨
  (∃ e, ev = LogException e ∧
        fileset_outcome process_fileset_out ndvi_of_composite f = Some e).

End RunEvents.

(** ** Example inputs *)

(** Three samples of a swath near Novosibirsk, the last one carrying the fill
    value of the sensor in both arrays. *)
Definition swath_lat : list float := [Fin 55; Fin 55.02; Fin (-999.3)].
Definition swath_lon : list float := [Fin 83; Fin 83.04; Fin (-999.3)].

Definition swath_index : ProcessedGeolocFile :=
  {| x_index := [0; 2];
     y_index := [0; 1];
     lonlat_mask := [true; true; false];
     geotransform_max_y := 5502000;
     geotransform_min_x := 8300000;
     scale := 2000;
     out_image_shape := (2, 3) |}.

(** The fill codes of the VIIRS data records, and a gap filler that fills
    nothing. *)
Definition viirs_ND_OBPT : float := Fin 65533.
Definition viirs_ND_NA : float := Fin 65535.
Definition no_fill (a : ndarray) (_ : list bool) (_ _ : nat) : ndarray := a.

(** The call [process_band_file(file, geoloc_file)] of the assembler, with
    the default threshold. *)
Definition rasterize (f : GeofileInfo) (g : ProcessedGeolocFile) : result ndarray :=
  process_band_file viirs_ND_OBPT viirs_ND_NA no_fill f g (Fin 60000).

Definition band_file (nm bnd : string) (ds : option (list float)) : GeofileInfo :=
  {| path := nm; name := nm; band := bnd; is_geoloc := false; is_band := true;
     file := Some {| dataset := ds; bandsdr := None;
                     factors := Some (Fin 0.01, Fin 0) |} |}.

(** Four samples, one per cell of a 2 x 2 grid. *)
Definition grid_index : ProcessedGeolocFile :=
  {| x_index := [0; 1; 0; 1];
     y_index := [0; 0; 1; 1];
     lonlat_mask := [true; true; true; true];
     geotransform_max_y := 2000;
     geotransform_min_x := 0;
     scale := 2000;
     out_image_shape := (2, 2) |}.

(** Three I-bands, the second without its sub-dataset. *)
Definition three_bands : list GeofileInfo :=
  [ band_file "SVI01" "I" (Some [Fin 100; Fin 200; Fin 300; Fin 400]);
    band_file "SVI02" "I" None;
    band_file "SVI03" "I" (Some [Fin 500; Fin 600; Fin 700; Fin 800]) ].

(** An I-band and an M-band in one list. *)
Definition mixed_bands : list GeofileInfo :=
  [ band_file "SVI01" "I" (Some [Fin 100; Fin 200; Fin 300; Fin 400]);
    band_file "SVM01" "M" (Some [Fin 500; Fin 600; Fin 700; Fin 800]) ].

(** Three samples, the first and the third on one cell of a 2 x 2 grid, and
    a band with one count for each. *)
Definition overlap_index : ProcessedGeolocFile :=
  {| x_index := [0; 1; 0];
     y_index := [0; 1; 0];
     lonlat_mask := [true; true; true];
     geotransform_max_y := 2000;
     geotransform_min_x := 0;
     scale := 2000;
     out_image_shape := (2, 2) |}.

Definition svi01_overlap : GeofileInfo :=
  band_file "SVI01" "I" (Some [Fin 100; Fin 200; Fin 300]).

(** Two epochs of NDVI, with clouds (-2) and gaps (NaN). *)
Definition epoch1 : list float :=
  [Fin 0.001; NaN; Fin (-2); Fin 0.5; Fin 0.4; NaN].
Definition epoch2 : list float :=
  [Fin 10; Fin 0.3; NaN; Fin 0.6; Fin (-2); Fin (-2)].

(** Two file sets of one directory, and stand-ins for the collaborators of
    the batch driver. *)
Definition fileset_named (nm bnd : string) : ViirsFileSet :=
  {| geoloc_file := {| path := nm; name := nm; band := bnd; is_geoloc := true;
                       is_band := false; file := None |};
     band_files := [] |}.

Definition night_pass : ViirsFileSet := fileset_named "GMODO_npp_d20200101" "M".
Definition day_pass : ViirsFileSet := fileset_named "GIMGO_npp_d20200102" "I".

Definition found_both (_ : GDALViirsDB) : list ViirsFileSet := [night_pass; day_pass].

Definition all_composites_written (_ : ViirsFileSet) : result string := Ok "out.tiff".

Definition first_file_corrupted (fileset : ViirsFileSet) : result string :=
  if bool_decide (fileset_key fileset = fileset_key night_pass)
  then Err CorruptedFile else Ok "out.tiff".

Definition ndvi_written (_ : string) (_ : ViirsFileSet) : ndvi_step :=
  NdviCalled (Ok tt).

Definition fresh_processor : processor :=
  {| persistence := {| filesets := ∅; meta := ∅ |}; trace := [] |}.

(** A processor whose store already records both file sets. *)
Definition seasoned_processor : processor :=
  on_persistence (add_fileset day_pass)
    (on_persistence (add_fileset night_pass) fresh_processor).

(** ** Example inputs for the pipeline, the legend and discovery *)

Definition svi01_contents : BandFile :=
  {| dataset := Some [Fin 100; Fin 200; Fin 300; Fin 400]; bandsdr := None;
     factors := Some (Fin 0.01, Fin 0) |}.

Definition svi01 : GeofileInfo :=
  band_file "SVI01" "I" (Some [Fin 100; Fin 200; Fin 300; Fin 400]).

(** The grid that [rasterize] makes of [svi01] on [grid_index]. *)
Definition svi01_grid : ndarray :=
  {| shape := (2, 2)%nat; data := [Fin 3.00; Fin 4.00; Fin 1.00; Fin 2.00] |}.

(** A file set of three I-bands with a 2 x 2 swath. *)
Definition pass_contents : GeolocFile :=
  {| latitude := Band1 [Fin 55; Fin 55; Fin 55.02; Fin 55.02];
     longitude := Band1 [Fin 83; Fin 83.04; Fin 83; Fin 83.04] |}.

Definition pass_fileset : ViirsFileSet :=
  {| geoloc_file := {| path := "GIMGO"; name := "GIMGO"; band := "I";
                       is_geoloc := true; is_band := false; file := None |};
     band_files := three_bands |}.

Definition keep_all (bands : list ndarray) : list ndarray := bands.

(** [process_fileset] with the stand-ins of the examples. *)
Definition run_pipeline (fileset : ViirsFileSet) (contents : option GeolocFile)
    (trim : bool) : result (list ndarray) :=
  process_fileset cylindrical viirs_ND_OBPT viirs_ND_NA no_fill keep_all
    fileset contents 2000 trim.

Definition pass_composite : list ndarray :=
  Eval vm_compute in
    match run_pipeline pass_fileset (Some pass_contents) false with
    | Ok bands => bands
    | Err _ => []
    end.

(** The dynamics of the two example epochs. *)
Definition epoch_dynamics : list float :=
  Eval vm_compute in
    match process_ndvi_dynamics epoch1 epoch2 with
    | Ok b3 => b3
    | Err _ => []
    end.

(** A cloud-mask step that always fails. *)
Definition failing_mask (_ : list float) (_ : list bool) (_ : float)
  : result (list float) := Err ValueError.

(** Two directories, the first last changed at time 100 and the second at
    time 300, with one file set each; a store whose last check was at 200. *)
Definition two_dirs : list string := ["/data/old"; "/data/new"].

Definition no_expansion (d : string) : string := d.

Definition dir_mtime (d : string) : Q :=
  if bool_decide (d = "/data/old") then 100 else 300.

Definition dir_filesets (d : string) : list ViirsFileSet :=
  if bool_decide (d = "/data/old") then [night_pass] else [day_pass].

Definition checked_at_200 : processor :=
  on_persistence (set_meta "last_check_time" 200) fresh_processor.

(** * Properties *)

(** ** Results and reductions *)

Lemma bind_Ok_inv {A B} (m : result A) (f : A → result B) b :
  m ≫= f = Ok b → ∃ a, m = Ok a ∧ f a = Ok b.
Proof. destruct m as [a|e]; [eauto | discriminate]. Qed.

Lemma py_assert_Ok c u : py_assert c = Ok u → c = true.
Proof. by destruct c. Qed.

Ltac inv_bind H :=
  let a := fresh "v" in
  let Ha := fresh "E" in
  apply bind_Ok_inv in H as (a & Ha & H).

(** One step of a computation in [result]: case on the outcome of the first
    call and carry on with the success. *)
Ltac step :=
  match goal with
  | |- context [mbind _ ?m] =>
      let E := fresh "E" in
      destruct m eqn:E; cbn [mbind result_bind]
  end.

Lemma fold_min_spec l a :
  fold_left Z.min l a <= a ∧ Forall (fun v => fold_left Z.min l a <= v) l.
Proof.
  revert a. induction l as [|x l IH]; intros a; simpl.
  - split; [lia | constructor].
  - destruct (IH (Z.min a x)) as [Hle Hall]. split; [lia|].
    constructor; [lia | done].
Qed.

Lemma fold_max_spec l a :
  a <= fold_left Z.max l a ∧ Forall (fun v => v <= fold_left Z.max l a) l.
Proof.
  revert a. induction l as [|x l IH]; intros a; simpl.
  - split; [lia | constructor].
  - destruct (IH (Z.max a x)) as [Hle Hall]. split; [lia|].
    constructor; [lia | done].
Qed.

Lemma fold_min_elem l a : fold_left Z.min l a ∈ a :: l.
Proof.
  revert a. induction l as [|x l IH]; intros a; simpl; [apply elem_of_cons; by left|].
  specialize (IH (Z.min a x)). rewrite elem_of_cons in IH. rewrite !elem_of_cons.
  destruct IH as [->|IH]; [|tauto].
  destruct (Z.min_spec a x) as [[_ ->]|[_ ->]]; tauto.
Qed.

Lemma fold_max_elem l a : fold_left Z.max l a ∈ a :: l.
Proof.
  revert a. induction l as [|x l IH]; intros a; simpl; [apply elem_of_cons; by left|].
  specialize (IH (Z.max a x)). rewrite elem_of_cons in IH. rewrite !elem_of_cons.
  destruct IH as [->|IH]; [|tauto].
  destruct (Z.max_spec a x) as [[_ ->]|[_ ->]]; tauto.
Qed.

Lemma np_min_Ok l m : np_min l = Ok m → m ∈ l ∧ Forall (fun v => m <= v) l.
Proof.
  destruct l as [|a l]; [done|]. intros [= <-].
  split; [apply fold_min_elem|].
  destruct (fold_min_spec l a). by constructor.
Qed.

Lemma np_max_Ok l m : np_max l = Ok m → m ∈ l ∧ Forall (fun v => v <= m) l.
Proof.
  destruct l as [|a l]; [done|]. intros [= <-].
  split; [apply fold_max_elem|].
  destruct (fold_max_spec l a). by constructor.
Qed.

Lemma np_min_is_Ok l : l ≠ [] → ∃ m, np_min l = Ok m.
Proof. destruct l; [done | eauto]. Qed.

Lemma np_max_is_Ok l : l ≠ [] → ∃ m, np_max l = Ok m.
Proof. destruct l; [done | eauto]. Qed.

Lemma shifted_nonneg l m :
  np_min l = Ok m → Forall (fun v => 0 <= v) ((fun v => v - m) <$> l).
Proof.
  intros [_ Hall]%np_min_Ok. apply Forall_fmap.
  eapply Forall_impl; [exact Hall|]. simpl. lia.
Qed.

(** ** Boolean masks *)

Lemma mask_select_length {A} (mask : list bool) (a : list A) :
  length mask = length a →
  length (mask_select mask a) = length (filter (fun m => m = true) mask).
Proof.
  revert a. induction mask as [|m mask IH]; intros [|v a] Hlen; try done.
  injection Hlen as Hlen. destruct m.
  - rewrite filter_cons_True by done. simpl. by rewrite IH.
  - rewrite filter_cons_False by done. simpl. by apply IH.
Qed.

Lemma filter_true_nil (mask : list bool) :
  (∀ i, mask !! i ≠ Some true) → filter (fun m => m = true) mask = [].
Proof.
  induction mask as [|m mask IH]; intros Hno; [done|].
  destruct m; [by specialize (Hno 0%nat)|].
  rewrite filter_cons_False; [|done]. apply IH. intros i. apply (Hno (S i)).
Qed.

Lemma filter_true_cons (mask : list bool) i :
  mask !! i = Some true → filter (fun m => m = true) mask ≠ [].
Proof.
  intros Hi Hnil.
  assert (true ∈ filter (fun m => m = true) mask) as Hin.
  { apply list_elem_of_filter. split; [done|]. by eapply list_elem_of_lookup_2. }
  rewrite Hnil in Hin. by apply not_elem_of_nil in Hin.
Qed.

Lemma getitem_mask_Ok {A} (a : list A) mask sel :
  getitem_mask a mask = Ok sel →
  length mask = length a ∧ sel = mask_select mask a.
Proof. unfold getitem_mask. case_decide; [by intros [= <-] | done]. Qed.

(** ** GeolocationIndexer *)

(** *** int64 conversions and arithmetic *)

Lemma in_int64_spec z : in_int64 z = true ↔ - 2 ^ 63 <= z <= 2 ^ 63 - 1.
Proof.
  unfold in_int64, int_indefinite, int64_max.
  rewrite andb_true_iff, !Z.leb_le. tauto.
Qed.

Lemma np_int_range a : - 2 ^ 63 <= np_int_ a <= 2 ^ 63 - 1.
Proof.
  unfold np_int_. destruct a as [q| | |]; try (unfold int_indefinite; lia).
  cbv zeta. destruct (in_int64 _) eqn:E.
  - by apply in_int64_spec.
  - unfold int_indefinite. lia.
Qed.

Lemma wrap64_id z : - 2 ^ 63 <= z <= 2 ^ 63 - 1 → wrap64 z = z.
Proof.
  intros Hz. unfold wrap64. rewrite Z.mod_small; lia.
Qed.

Lemma raw_index_range scale v : - 2 ^ 63 <= raw_index scale v <= 2 ^ 63 - 1.
Proof. apply np_int_range. Qed.

Lemma np_max_min_le l m hi : np_min l = Ok m → np_max l = Ok hi → m <= hi.
Proof.
  intros [Hin _]%np_min_Ok [_ Hle]%np_max_Ok.
  rewrite Forall_forall in Hle. by apply Hle.
Qed.

(** Shifting int64 indices by their minimum: as long as they span less than
    2^63 - 1, nothing wraps, the indices start at 0 and the largest one is
    the span. *)
Lemma shift_within_int64 l m hi :
  np_min l = Ok m → np_max l = Ok hi → hi - m < 2 ^ 63 - 1 →
  (fun v => wrap64 (v - m)) <$> l = (fun v => v - m) <$> l ∧
  np_max ((fun v => v - m) <$> l) = Ok (hi - m) ∧
  Forall (fun v => 0 <= v <= hi - m) ((fun v => v - m) <$> l).
Proof.
  intros Hmin Hmax Hspan.
  pose proof (np_min_Ok _ _ Hmin) as [_ Hlo].
  pose proof (np_max_Ok _ _ Hmax) as [Hhin Hhi].
  rewrite Forall_forall in Hlo, Hhi.
  assert (Forall (fun v => 0 <= v <= hi - m) ((fun v => v - m) <$> l)) as Hall.
  { apply Forall_fmap, Forall_forall. intros v Hv. simpl.
    specialize (Hlo _ Hv). specialize (Hhi _ Hv). lia. }
  split; [|split; [|done]].
  - apply list_fmap_ext. intros i v Hv. apply list_elem_of_lookup_2 in Hv.
    specialize (Hlo _ Hv). specialize (Hhi _ Hv). apply wrap64_id. lia.
  - destruct l as [|a l]; [done|].
    destruct (np_max_is_Ok ((fun v => v - m) <$> a :: l)) as [top Htop]; [done|].
    rewrite Htop. f_equal.
    apply np_max_Ok in Htop as [Hin Hle].
    rewrite Forall_forall in Hall, Hle.
    specialize (Hall _ Hin). simpl in Hall.
    assert (hi - m ∈ (fun v => v - m) <$> a :: l) as Hin'
      by (apply list_elem_of_fmap; eauto).
    specialize (Hle _ Hin'). lia.
Qed.

Lemma index_spread_eq scale coords m hi :
  np_min (raw_index scale <$> coords) = Ok m →
  np_max (raw_index scale <$> coords) = Ok hi →
  index_spread scale coords = hi - m.
Proof. unfold index_spread. by intros -> ->. Qed.

(** One axis of the index whose indices span less than 2^63 - 1. *)
Lemma axis_within_int64 scale coords m idx top :
  np_min (raw_index scale <$> coords) = Ok m →
  idx = (fun v => wrap64 (raw_index scale v - m)) <$> coords →
  np_max idx = Ok top →
  index_spread scale coords < 2 ^ 63 - 1 →
  ∃ hi, np_max (raw_index scale <$> coords) = Ok hi ∧
        idx = (fun v => raw_index scale v - m) <$> coords ∧
        top = hi - m ∧ wrap64 (top + 1) = top + 1 ∧ m <= hi ∧
        Forall (fun v => 0 <= v <= top) idx.
Proof.
  intros Hm Hidx Htop Hspan.
  destruct (np_max_is_Ok (raw_index scale <$> coords)) as [hi Hhi];
    [by intros Hnil; rewrite Hnil in Hm|].
  rewrite (index_spread_eq _ _ _ _ Hm Hhi) in Hspan.
  destruct (shift_within_int64 _ _ _ Hm Hhi Hspan) as (Hw & Hmax & Hall).
  rewrite <- !list_fmap_compose in *.
  change ((λ v, wrap64 (v - m)) ∘ raw_index scale)
    with (fun v => wrap64 (raw_index scale v - m)) in Hw.
  change ((λ v, v - m) ∘ raw_index scale)
    with (fun v => raw_index scale v - m) in *.
  rewrite Hw in Hidx. subst idx.
  assert (top = hi - m) as -> by congruence.
  pose proof (np_max_min_le _ _ _ Hm Hhi).
  exists hi. repeat split; try done. apply wrap64_id; lia.
Qed.

Section GeolocationProperties.

Variable proj_point : float → float → float * float.

Lemma projected_lengths lat lon :
  length lon = length lat →
  length (projected proj_point lat lon).1
    = length (filter (fun m => m = true) (zip_with valid_sample lon lat)) ∧
  length (projected proj_point lat lon).2
    = length (filter (fun m => m = true) (zip_with valid_sample lon lat)).
Proof.
  intros Hlen. unfold projected, projection. simpl.
  rewrite !length_fmap, length_zip_with.
  rewrite !mask_select_length; [lia | |]; rewrite length_zip_with; lia.
Qed.

(** The pieces of a returned index, in terms of the projected coordinates. *)
Lemma geoloc_structure lat lon scale g :
  process_geoloc_file proj_point lat lon scale = Ok g →
  length lon = length lat ∧
  lonlat_mask g = zip_with valid_sample lon lat ∧
  ∃ x0 y0 y_top x_top,
    np_min (raw_index scale <$> (projected proj_point lat lon).1) = Ok x0 ∧
    np_min (raw_index scale <$> (projected proj_point lat lon).2) = Ok y0 ∧
    x_index g
    = (fun v => wrap64 (raw_index scale v - x0)) <$> (projected proj_point lat lon).1 ∧
    y_index g
    = (fun v => wrap64 (raw_index scale v - y0)) <$> (projected proj_point lat lon).2 ∧
    np_max (y_index g) = Ok y_top ∧ np_max (x_index g) = Ok x_top ∧
    out_image_shape g = (wrap64 (y_top + 1), wrap64 (x_top + 1)) ∧
    np_min ((fun v => np_int_ (np_round v)) <$> (projected proj_point lat lon).1)
      = Ok (geotransform_min_x g) ∧
    np_max ((fun v => np_int_ (np_round v)) <$> (projected proj_point lat lon).2)
      = Ok (geotransform_max_y g) ∧
    forallb isfinite (projected proj_point lat lon).1 = true.
Proof.
  unfold process_geoloc_file. intros H.
  case_decide as Hlen; [|by case_decide].
  inv_bind H. inv_bind H.
  apply getitem_mask_Ok in E as [_ ->]. apply getitem_mask_Ok in E0 as [_ ->].
  unfold projected. destruct (projection _ _ _) as [x y]. simpl.
  do 9 inv_bind H. injection H as <-.
  cbn [x_index y_index lonlat_mask geotransform_min_x geotransform_max_y out_image_shape].
  apply py_assert_Ok in E1.
  split; [done|]. split; [done|].
  exists v4, v5, v6, v7. rewrite <- !list_fmap_compose in *.
  split; [exact E4|]. split; [exact E5|]. by repeat split.
Qed.

(** What holds of every index that [process_geoloc_file] returns. *)
Lemma geoloc_inv lat lon scale g :
  process_geoloc_file proj_point lat lon scale = Ok g →
  lonlat_mask g = zip_with valid_sample lon lat ∧
  length (x_index g) = length (filter (fun m => m = true) (lonlat_mask g)) ∧
  length (y_index g) = length (x_index g).
Proof.
  intros Hg.
  destruct (geoloc_structure _ _ _ _ Hg)
    as (Hlen & Hmask & x0 & y0 & yt & xt & _ & _ & Hx & Hy & _).
  destruct (projected_lengths lat lon Hlen) as [Hlx Hly].
  rewrite Hmask, Hx, Hy, !length_fmap. split; [done|]. split; lia.
Qed.

(** The same when the indices of each axis span less than 2^63 - 1: no
    int64 operation wraps around. *)
Lemma geoloc_within_int64 lat lon scale g :
  process_geoloc_file proj_point lat lon scale = Ok g →
  index_spread scale (projected proj_point lat lon).1 < 2 ^ 63 - 1 →
  index_spread scale (projected proj_point lat lon).2 < 2 ^ 63 - 1 →
  ∃ x0 y0 x_hi y_hi,
    np_min (raw_index scale <$> (projected proj_point lat lon).1) = Ok x0 ∧
    np_min (raw_index scale <$> (projected proj_point lat lon).2) = Ok y0 ∧
    np_max (raw_index scale <$> (projected proj_point lat lon).1) = Ok x_hi ∧
    np_max (raw_index scale <$> (projected proj_point lat lon).2) = Ok y_hi ∧
    x_index g = (fun v => raw_index scale v - x0) <$> (projected proj_point lat lon).1 ∧
    y_index g = (fun v => raw_index scale v - y0) <$> (projected proj_point lat lon).2 ∧
    np_max (y_index g) = Ok (y_hi - y0) ∧ np_max (x_index g) = Ok (x_hi - x0) ∧
    out_image_shape g = (y_hi - y0 + 1, x_hi - x0 + 1) ∧
    Forall (fun v => 0 <= v <= y_hi - y0) (y_index g) ∧
    Forall (fun v => 0 <= v <= x_hi - x0) (x_index g).
Proof.
  intros Hg Hsx Hsy.
  destruct (geoloc_structure _ _ _ _ Hg)
    as (_ & _ & x0 & y0 & yt & xt & Hx0 & Hy0 & Hx & Hy & Hyt & Hxt & Hshape & _).
  destruct (np_max_is_Ok (raw_index scale <$> (projected proj_point lat lon).1))
    as [x_hi Hxhi]; [by intros Hnil; rewrite Hnil in Hx0|].
  destruct (np_max_is_Ok (raw_index scale <$> (projected proj_point lat lon).2))
    as [y_hi Hyhi]; [by intros Hnil; rewrite Hnil in Hy0|].
  rewrite (index_spread_eq _ _ _ _ Hx0 Hxhi) in Hsx.
  rewrite (index_spread_eq _ _ _ _ Hy0 Hyhi) in Hsy.
  destruct (shift_within_int64 _ _ _ Hx0 Hxhi Hsx) as (Hwx & Hmx & Hax).
  destruct (shift_within_int64 _ _ _ Hy0 Hyhi Hsy) as (Hwy & Hmy & Hay).
  rewrite <- !list_fmap_compose in *.
  change ((λ v, wrap64 (v - x0)) ∘ raw_index scale)
    with (fun v => wrap64 (raw_index scale v - x0)) in Hwx.
  change ((λ v, wrap64 (v - y0)) ∘ raw_index scale)
    with (fun v => wrap64 (raw_index scale v - y0)) in Hwy.
  rewrite Hwx in Hx. rewrite Hwy in Hy.
  rewrite Hx in Hxt |- *. rewrite Hy in Hyt |- *.
  assert (xt = x_hi - x0) as -> by congruence.
  assert (yt = y_hi - y0) as -> by congruence.
  pose proof (np_max_min_le _ _ _ Hx0 Hxhi). pose proof (np_max_min_le _ _ _ Hy0 Hyhi).
  exists x0, y0, x_hi, y_hi. repeat split; try done.
  rewrite Hshape. f_equal; apply wrap64_id; lia.
Qed.

(** The indexer returns an index as soon as the mask selects a sample and
    the projected x coordinates are finite. *)
Lemma process_geoloc_file_returns lat lon scale i :
  length lon = length lat →
  zip_with valid_sample lon lat !! i = Some true →
  forallb isfinite (projected proj_point lat lon).1 = true →
  ∃ g, process_geoloc_file proj_point lat lon scale = Ok g.
Proof.
  intros Hlen Hi Hfin. unfold process_geoloc_file.
  rewrite decide_True by done.
  unfold getitem_mask. rewrite !decide_True by (rewrite length_zip_with; lia).
  cbn [mbind result_bind].
  pose proof (projected_lengths lat lon Hlen) as [Hx Hy].
  pose proof (filter_true_cons _ _ Hi) as Hne.
  unfold projected in Hx, Hy, Hfin.
  destruct (projection _ _ _) as [x y]. simpl in Hx, Hy, Hfin.
  rewrite bool_decide_eq_true_2 by lia. rewrite Hfin. cbn [py_assert mbind result_bind].
  assert (x ≠ []) as Hxne by (intros ->; destruct (filter _ _); done).
  assert (y ≠ []) as Hyne by (intros ->; destruct (filter _ _); done).
  repeat match goal with
  | |- context [np_min ?l] =>
      let m := fresh "m" in
      destruct (np_min_is_Ok l) as [m ->];
        [by rewrite <- ?length_zero_iff_nil, ?length_fmap, ?length_zero_iff_nil|];
      cbn [mbind result_bind]
  | |- context [np_max ?l] =>
      let m := fresh "m" in
      destruct (np_max_is_Ok l) as [m ->];
        [by rewrite <- ?length_zero_iff_nil, ?length_fmap, ?length_zero_iff_nil|];
      cbn [mbind result_bind]
  end.
  eauto.
Qed.

(** C1, as the code has it.  When the validity mask selects at least one
    sample, and the column indices and the row indices before the shift to
    zero each span less than 2^63 - 1 (so that no int64 operation wraps
    around), every index pair that [process_geoloc_file] produces lies within
    the output grid: the row and column index arrays have the same shape, one
    entry per selected sample; [out_image_shape] is
    (max(row_index)+1, max(col_index)+1); and 0 <= row < out_image_shape[0],
    0 <= col < out_image_shape[1] for every pair.  Such an index is produced
    whenever the projected x coordinates are finite. *)
Theorem geoloc_indices_within_shape lat lon scale :
  (∃ i, zip_with valid_sample lon lat !! i = Some true) →
  index_spread scale (projected proj_point lat lon).1 < 2 ^ 63 - 1 →
  index_spread scale (projected proj_point lat lon).2 < 2 ^ 63 - 1 →
  (∀ g, process_geoloc_file proj_point lat lon scale = Ok g →
     length (y_index g) = length (x_index g) ∧
     length (x_index g)
       = length (filter (fun m => m = true) (zip_with valid_sample lon lat)) ∧
     (∃ row_max col_max,
         np_max (y_index g) = Ok row_max ∧ np_max (x_index g) = Ok col_max ∧
         out_image_shape g = (row_max + 1, col_max + 1)) ∧
     ∀ i row col,
       y_index g !! i = Some row → x_index g !! i = Some col →
       0 <= row < (out_image_shape g).1 ∧ 0 <= col < (out_image_shape g).2) ∧
  (length lon = length lat →
   forallb isfinite (projected proj_point lat lon).1 = true →
   ∃ g, process_geoloc_file proj_point lat lon scale = Ok g).
Proof.
  intros [i0 Hi0] Hsx Hsy. split; [|by eauto using process_geoloc_file_returns].
  intros g Hg.
  destruct (geoloc_inv _ _ _ _ Hg) as (Hmask & Hcount & Hsame).
  destruct (geoloc_within_int64 _ _ _ _ Hg Hsx Hsy)
    as (x0 & y0 & xhi & yhi & _ & _ & _ & _ & _ & _ & Hy & Hx & Hshape & Hyall & Hxall).
  split; [done|]. split; [by rewrite <- Hmask|]. split; [eauto|].
  intros i row col Hrow Hcol. rewrite Hshape. simpl.
  rewrite Forall_lookup in Hyall, Hxall.
  specialize (Hyall _ _ Hrow). specialize (Hxall _ _ Hcol).
  simpl in *. lia.
Qed.

(** C3, as the code has it.  When the validity mask selects at least one
    sample, and the indices of each axis span less than 2^63 - 1, the
    [out_image_shape] that [process_geoloc_file] returns has both dimensions
    >= 1.  A dimension below 2 is turned down only later, by
    [process_band_file], which raises instead of returning a grid. *)
Theorem geoloc_shape_at_least_one lat lon scale g :
  (∃ i, zip_with valid_sample lon lat !! i = Some true) →
  index_spread scale (projected proj_point lat lon).1 < 2 ^ 63 - 1 →
  index_spread scale (projected proj_point lat lon).2 < 2 ^ 63 - 1 →
  process_geoloc_file proj_point lat lon scale = Ok g →
  (1 <= (out_image_shape g).1 ∧ 1 <= (out_image_shape g).2) ∧
  ∀ ND_OBPT ND_NA fillnodata geofile no_data_threshold,
    (out_image_shape g).1 < 2 ∨ (out_image_shape g).2 < 2 →
    ∃ e, process_band_file ND_OBPT ND_NA fillnodata geofile g no_data_threshold
         = Err e.
Proof.
  intros _ Hsx Hsy Hg.
  destruct (geoloc_within_int64 _ _ _ _ Hg Hsx Hsy)
    as (x0 & y0 & xhi & yhi & Hx0 & Hy0 & Hxhi & Hyhi & _ & _ & _ & _ & Hshape & _).
  split.
  - rewrite Hshape. simpl.
    pose proof (np_max_min_le _ _ _ Hx0 Hxhi). pose proof (np_max_min_le _ _ _ Hy0 Hyhi).
    lia.
  - intros ND_OBPT ND_NA fillnodata geofile thr Hthin.
    unfold process_band_file.
    do 7 (step; [|by eauto]).
    assert (forallb (fun d => 1 <? d)
              [(out_image_shape g).1; (out_image_shape g).2] = false) as ->.
    { simpl. destruct Hthin.
      - replace (1 <? (out_image_shape g).1) with false; [done|].
        symmetry. apply Z.ltb_ge. lia.
      - replace (1 <? (out_image_shape g).2) with false; [|symmetry; apply Z.ltb_ge; lia].
        by rewrite andb_false_r. }
    simpl. eauto.
Qed.

(** C4, as the code has it.  If the projection of the selected samples
    yields a non-finite value in the x coordinate array, [process_geoloc_file]
    raises AssertionError, and returns no index. *)
Theorem nonfinite_x_raises_AssertionError lat lon scale :
  length lon = length lat →
  (∃ v, v ∈ (projected proj_point lat lon).1 ∧ isfinite v = false) →
  process_geoloc_file proj_point lat lon scale = Err AssertionError.
Proof.
  intros Hlen (v & Hin & Hv). unfold process_geoloc_file.
  rewrite decide_True by done.
  unfold getitem_mask. rewrite !decide_True by (rewrite length_zip_with; lia).
  cbn [mbind result_bind].
  pose proof (projected_lengths lat lon Hlen) as [Hx Hy].
  unfold projected in Hx, Hy, Hin.
  destruct (projection _ _ _) as [x y]. simpl in Hx, Hy, Hin.
  rewrite bool_decide_eq_true_2 by lia. cbn [py_assert mbind result_bind].
  assert (forallb isfinite x = false) as ->; [|done].
  apply not_true_is_false. intros Hall.
  rewrite forallb_forall in Hall. apply list_elem_of_In in Hin.
  rewrite (Hall _ Hin) in Hv. done.
Qed.

(** C5, as the code has it.  When the latitude and longitude rasters agree in
    shape and the validity mask selects no sample, [process_geoloc_file]
    fails: the minimum of the empty index array raises ValueError. *)
Theorem empty_mask_raises_ValueError lat lon scale :
  length lon = length lat →
  (∀ i, zip_with valid_sample lon lat !! i ≠ Some true) →
  process_geoloc_file proj_point lat lon scale = Err ValueError.
Proof.
  intros Hlen Hnone. unfold process_geoloc_file.
  rewrite decide_True by done.
  unfold getitem_mask. rewrite !decide_True by (rewrite length_zip_with; lia).
  cbn [mbind result_bind].
  pose proof (projected_lengths lat lon Hlen) as [Hx Hy].
  rewrite (filter_true_nil _ Hnone) in Hx, Hy. unfold projected in Hx, Hy.
  destruct (projection _ _ _) as [x y]. simpl in Hx, Hy.
  apply length_zero_iff_nil in Hx as ->. apply length_zero_iff_nil in Hy as ->.
  reflexivity.
Qed.

End GeolocationProperties.

(** *** Examples for the indexer *)

Lemma geoloc_indices_within_shape_witness :
  process_geoloc_file cylindrical swath_lat swath_lon 2000 = Ok swath_index ∧
  ∀ i row col,
    y_index swath_index !! i = Some row → x_index swath_index !! i = Some col →
    0 <= row < (out_image_shape swath_index).1 ∧
    0 <= col < (out_image_shape swath_index).2.
Proof.
  destruct (geoloc_indices_within_shape cylindrical swath_lat swath_lon 2000)
    as [Hinv _].
  - exists 0%nat. reflexivity.
  - vm_compute. reflexivity.
  - vm_compute. reflexivity.
  - split; [vm_compute; reflexivity|].
    apply (Hinv swath_index). vm_compute. reflexivity.
Defined.

(** Two samples on one row, the first 1.4e19 m east of the second, at one
    metre to the pixel.  The first x coordinate is beyond int64 and converts
    to -2^63; the shift by this minimum takes the second column to 2^63,
    which wraps around to -2^63: C1 as stated does not hold. *)
Lemma column_wraps_around_to_negative :
  (∃ i, zip_with valid_sample [Fin 14000000000000000000; Fin 0] [Fin 0; Fin 0] !! i
        = Some true) ∧
  ∃ g, process_geoloc_file planar [Fin 0; Fin 0] [Fin 14000000000000000000; Fin 0] 1
       = Ok g ∧
       x_index g !! 1%nat = Some (- 2 ^ 63) ∧ y_index g !! 1%nat = Some 0 ∧
       out_image_shape g = (1, 1) ∧
       ¬ (∀ i row col,
            y_index g !! i = Some row → x_index g !! i = Some col →
            0 <= row < (out_image_shape g).1 ∧ 0 <= col < (out_image_shape g).2).
Proof.
  split; [by exists 0%nat|].
  eexists. split; [vm_compute; reflexivity|].
  split; [reflexivity|]. split; [reflexivity|]. split; [reflexivity|].
  intros Hall. destruct (Hall 1%nat 0 (- 2 ^ 63)) as [_ [Hcol _]]; [done..|].
  by apply Hcol.
Qed.

(** A swath with a single valid sample is indexed onto a 1 x 1 grid: C3 as
    stated does not hold.  Nor does a bound of 1 hold without a bound on the
    span of the indices.  Take two samples on one column at one metre to the
    pixel, the first 1e19 m north (beyond int64, it converts to -2^63), the
    second at -1: the row indices before the shift span 2^63 - 1, the
    largest row is the largest int64, and the height, one more, wraps around
    to -2^63. *)
Lemma shape_falls_below_two :
  ((∃ i, zip_with valid_sample [Fin 83] [Fin 55] !! i = Some true) ∧
   ∃ g, process_geoloc_file cylindrical [Fin 55] [Fin 83] 2000 = Ok g ∧
        out_image_shape g = (1, 1) ∧
        ¬ (2 <= (out_image_shape g).1 ∧ 2 <= (out_image_shape g).2)) ∧
  ((∃ i, zip_with valid_sample [Fin 0; Fin 0]
           [Fin 10000000000000000000; Fin (-1)] !! i = Some true) ∧
   index_spread 1
     (projected planar [Fin 10000000000000000000; Fin (-1)] [Fin 0; Fin 0]).2
   = 2 ^ 63 - 1 ∧
   ∃ g, process_geoloc_file planar [Fin 10000000000000000000; Fin (-1)]
          [Fin 0; Fin 0] 1 = Ok g ∧
        y_index g = [0; 2 ^ 63 - 1] ∧
        out_image_shape g = (- 2 ^ 63, 1) ∧
        ¬ (2 <= (out_image_shape g).1 ∧ 2 <= (out_image_shape g).2) ∧
        ¬ (1 <= (out_image_shape g).1)).
Proof.
  split.
  - split; [by exists 0%nat|].
    eexists. split; [vm_compute; reflexivity|]. simpl. split; [done | lia].
  - split; [by exists 0%nat|]. split; [vm_compute; reflexivity|].
    eexists. split; [vm_compute; reflexivity|].
    split; [reflexivity|]. split; [reflexivity|]. simpl. split; lia.
Qed.

Lemma geoloc_shape_at_least_one_witness :
  (1 <= (out_image_shape swath_index).1 ∧ 1 <= (out_image_shape swath_index).2) ∧
  ∀ ND_OBPT ND_NA fillnodata geofile no_data_threshold,
    (out_image_shape swath_index).1 < 2 ∨ (out_image_shape swath_index).2 < 2 →
    ∃ e, process_band_file ND_OBPT ND_NA fillnodata geofile swath_index
           no_data_threshold = Err e.
Proof.
  apply (geoloc_shape_at_least_one cylindrical swath_lat swath_lon 2000).
  - exists 0%nat. reflexivity.
  - vm_compute. reflexivity.
  - vm_compute. reflexivity.
  - vm_compute. reflexivity.
Defined.

(** A latitude of 100 degrees passes the validity mask and projects to
    infinity; the indexer then raises AssertionError, not InvalidData: C4 as
    stated does not hold. *)
Lemma nonfinite_x_is_not_InvalidData :
  (∃ v, v ∈ (projected cylindrical [Fin 100] [Fin 83]).1 ∧ isfinite v = false) ∧
  process_geoloc_file cylindrical [Fin 100] [Fin 83] 2000 = Err AssertionError ∧
  process_geoloc_file cylindrical [Fin 100] [Fin 83] 2000 ≠ Err InvalidData.
Proof.
  split; [|split; [vm_compute; reflexivity | vm_compute; discriminate]].
  exists PInf. split; [|done]. vm_compute. apply list_elem_of_here.
Qed.

Lemma nonfinite_x_raises_AssertionError_witness :
  process_geoloc_file cylindrical [Fin 55; Fin 100] [Fin 83; Fin 83] 2000
  = Err AssertionError.
Proof.
  apply (nonfinite_x_raises_AssertionError cylindrical).
  - reflexivity.
  - exists PInf. split; [|reflexivity].
    vm_compute. apply list_elem_of_further, list_elem_of_here.
Defined.

(** The second finiteness assertion of the source tests the x coordinates
    again: a sample at the pole, whose y coordinate alone is infinite, goes
    through, and an index is returned. *)
Example nonfinite_y_goes_unnoticed :
  (projected cylindrical [Fin 90] [Fin 83]).2 = [PInf] ∧
  ∃ g, process_geoloc_file cylindrical [Fin 90] [Fin 83] 2000 = Ok g.
Proof. split; [vm_compute; reflexivity|]. eexists. vm_compute. reflexivity. Qed.

(** A swath of fill values only makes the indexer fail with ValueError, not
    InvalidData: C5 as stated does not hold. *)
Lemma empty_mask_is_not_InvalidData :
  (∀ i, zip_with valid_sample [Fin (-999.3)] [Fin (-999.3)] !! i ≠ Some true) ∧
  process_geoloc_file cylindrical [Fin (-999.3)] [Fin (-999.3)] 2000 = Err ValueError ∧
  process_geoloc_file cylindrical [Fin (-999.3)] [Fin (-999.3)] 2000 ≠ Err InvalidData.
Proof.
  split; [|split; [vm_compute; reflexivity | vm_compute; discriminate]].
  intros [|[|i]]; vm_compute; discriminate.
Qed.

Lemma empty_mask_raises_ValueError_witness :
  process_geoloc_file cylindrical [Fin (-999.3); NaN] [Fin 83; Fin 83] 2000
  = Err ValueError.
Proof.
  apply (empty_mask_raises_ValueError cylindrical).
  - reflexivity.
  - intros [|[|[|i]]]; vm_compute; discriminate.
Defined.

(** ** BandRasterizer *)

(** *** The scatter step *)

Lemma np_full_well_shaped shp v : well_shaped (np_full shp v).
Proof. unfold well_shaped, np_full. simpl. by rewrite length_replicate. Qed.

Lemma norm_index_Ok n i r : norm_index n i = Ok r → (r < n)%nat.
Proof.
  unfold norm_index. repeat case_decide; intros [= <-]; lia.
Qed.

Lemma flat_index_inj (w r c r' c' : nat) :
  (c < w)%nat → (c' < w)%nat → (r * w + c = r' * w + c')%nat → r = r' ∧ c = c'.
Proof. intros Hc Hc' Heq. assert (r = r') by nia. split; [done | nia]. Qed.

Lemma cell_write_eq shp d (r c : nat) v :
  length d = (shp.1 * shp.2)%nat → (r < shp.1)%nat → (c < shp.2)%nat →
  cell {| shape := shp; data := <[(r * shp.2 + c)%nat := v]> d |} r c = Some v.
Proof.
  intros Hd Hr Hc. unfold cell. simpl. rewrite decide_True by done.
  apply list_lookup_insert_eq. nia.
Qed.

Lemma cell_write_ne shp d (r c r' c' : nat) v :
  (c < shp.2)%nat → (r, c) ≠ (r', c') →
  cell {| shape := shp; data := <[(r * shp.2 + c)%nat := v]> d |} r' c'
  = cell {| shape := shp; data := d |} r' c'.
Proof.
  intros Hc Hne. unfold cell. simpl. case_decide as Hin; [|done].
  apply list_lookup_insert_ne. intros Heq.
  apply flat_index_inj in Heq as [-> ->]; [done | done | tauto].
Qed.

Lemma setitem_index_shape image ys xs vals out :
  setitem_index image ys xs vals = Ok out →
  shape out = shape image ∧ (well_shaped image → well_shaped out).
Proof.
  revert image xs vals.
  induction ys as [|y ys IH]; intros image [|x xs] [|v vals] H; simpl in H; try done.
  - by injection H as <-.
  - destruct (norm_index _ y) as [r|] eqn:Hr; [|done].
    destruct (norm_index _ x) as [c|] eqn:Hc; [|done].
    cbn [mbind result_bind] in H. apply IH in H as [Hs Hw]. simpl in *.
    split; [done|]. intros Himg. apply Hw. unfold well_shaped in *. simpl.
    by rewrite length_insert.
Qed.

Lemma setitem_index_untouched image ys xs vals out r c :
  setitem_index image ys xs vals = Ok out →
  (∀ k, ¬ targets (shape image) ys xs k r c) →
  cell out r c = cell image r c.
Proof.
  revert image xs vals.
  induction ys as [|y ys IH]; intros image [|x xs] [|v vals] H Hno; simpl in H; try done.
  - by injection H as <-.
  - destruct (norm_index _ y) as [r0|] eqn:Hr; [|done].
    destruct (norm_index _ x) as [c0|] eqn:Hc; [|done].
    cbn [mbind result_bind] in H.
    rewrite (IH _ _ _ H).
    + destruct image as [shp d]. simpl in *. apply cell_write_ne.
      * by eapply norm_index_Ok.
      * intros [= -> ->]. apply (Hno 0%nat). by exists y, x.
    + simpl. intros k Hk. apply (Hno (S k)). exact Hk.
Qed.

Lemma setitem_index_last image ys xs vals out k r c v :
  well_shaped image →
  setitem_index image ys xs vals = Ok out →
  targets (shape image) ys xs k r c → vals !! k = Some v →
  (∀ k', (k < k')%nat → ¬ targets (shape image) ys xs k' r c) →
  cell out r c = Some v.
Proof.
  revert image xs vals k.
  induction ys as [|y ys IH]; intros image [|x xs] [|v0 vals] k Hwf H Hk Hv Hlast;
    simpl in H; try done.
  - destruct (norm_index _ y) as [r0|] eqn:Hr; [|done].
    destruct (norm_index _ x) as [c0|] eqn:Hc; [|done].
    cbn [mbind result_bind] in H.
    destruct k as [|k].
    + destruct Hk as (y' & x' & [= <-] & [= <-] & Hr' & Hc').
      rewrite Hr in Hr'. rewrite Hc in Hc'. injection Hr' as ->. injection Hc' as ->.
      injection Hv as ->.
      rewrite (setitem_index_untouched _ _ _ _ _ r c H).
      * destruct image as [shp d]. simpl in *. apply cell_write_eq; [done | |].
        -- by eapply norm_index_Ok.
        -- by eapply norm_index_Ok.
      * simpl. intros k' Hk'. apply (Hlast (S k')); [lia | exact Hk'].
    + eapply (IH _ _ _ k); [| exact H | exact Hk | exact Hv |].
      * unfold well_shaped in *. simpl. by rewrite length_insert.
      * simpl. intros k' Hlt Hk'. apply (Hlast (S k')); [lia | exact Hk'].
Qed.

Lemma norm_index_is_Ok n i :
  - Z.of_nat n <= i < Z.of_nat n → ∃ r, norm_index n i = Ok r.
Proof. intros Hi. unfold norm_index. repeat case_decide; eauto. lia. Qed.

Lemma setitem_index_returns image ys xs vals :
  length ys = length vals → length xs = length vals →
  Forall (fun y => - Z.of_nat (shape image).1 <= y < Z.of_nat (shape image).1) ys →
  Forall (fun x => - Z.of_nat (shape image).2 <= x < Z.of_nat (shape image).2) xs →
  ∃ out, setitem_index image ys xs vals = Ok out.
Proof.
  revert image xs vals.
  induction ys as [|y ys IH]; intros image [|x xs] [|v vals] Hy Hx Hys Hxs;
    simpl in *; try done; [eauto|].
  apply Forall_cons in Hys as [Hy0 Hys]. apply Forall_cons in Hxs as [Hx0 Hxs].
  destruct (norm_index_is_Ok _ _ Hy0) as [r ->].
  destruct (norm_index_is_Ok _ _ Hx0) as [c ->].
  cbn [mbind result_bind]. apply IH; simpl; auto.
Qed.

Lemma bind_Err_inv {A B} (m : result A) (f : A → result B) e :
  m ≫= f = Err e → m = Err e ∨ ∃ a, m = Ok a ∧ f a = Err e.
Proof. destruct m as [a|e']; [eauto | intros [= ->]; by left]. Qed.

Lemma setitem_index_Ok_inv image ys xs vals out :
  setitem_index image ys xs vals = Ok out →
  length ys = length vals ∧ length xs = length vals ∧
  Forall (fun y => - Z.of_nat (shape image).1 <= y < Z.of_nat (shape image).1) ys ∧
  Forall (fun x => - Z.of_nat (shape image).2 <= x < Z.of_nat (shape image).2) xs.
Proof.
  revert image xs vals.
  induction ys as [|y ys IH]; intros image [|x xs] [|v vals] H; simpl in H; try done.
  destruct (norm_index _ y) as [r|] eqn:Hr; [|done].
  destruct (norm_index _ x) as [c|] eqn:Hc; [|done].
  cbn [mbind result_bind] in H. apply IH in H as (H1 & H2 & H3 & H4). simpl in *.
  repeat split; try (f_equal; done).
  - constructor; [|done]. unfold norm_index in Hr. repeat case_decide; try done; lia.
  - constructor; [|done]. unfold norm_index in Hc. repeat case_decide; try done; lia.
Qed.

Lemma flipped_length h w (d : list float) :
  length d = (h * w)%nat → length (concat (rev (rows_of h w d))) = (h * w)%nat.
Proof.
  revert d. induction h as [|h IH]; intros d Hd; [done|].
  simpl. rewrite concat_app, length_app. simpl.
  rewrite app_nil_r, length_take, IH by (rewrite length_drop; lia). lia.
Qed.

Lemma flipped_lookup h w (d : list float) r c :
  length d = (h * w)%nat → (r < h)%nat → (c < w)%nat →
  concat (rev (rows_of h w d)) !! (r * w + c)%nat = d !! ((h - 1 - r) * w + c)%nat.
Proof.
  revert d r. induction h as [|h IH]; intros d r Hd Hr Hc; [lia|].
  simpl. rewrite concat_app. simpl. rewrite app_nil_r.
  pose proof (flipped_length h w (drop w d)) as Hlen.
  rewrite length_drop in Hlen. specialize (Hlen ltac:(lia)).
  destruct (decide (r < h)%nat) as [Hlt|Hge].
  - rewrite lookup_app_l by (rewrite Hlen; nia).
    rewrite IH by (rewrite ?length_drop; lia).
    rewrite lookup_drop. f_equal. nia.
  - assert (r = h) as -> by lia.
    rewrite lookup_app_r by (rewrite Hlen; nia).
    rewrite Hlen, lookup_take_lt by lia. f_equal; nia.
Qed.

Lemma np_flip0_cell a r c :
  well_shaped a → (r < (shape a).1)%nat →
  cell (np_flip0 a) r c = cell a ((shape a).1 - 1 - r) c.
Proof.
  intros Hwf Hr. unfold cell, np_flip0, on_data. simpl.
  destruct (decide (c < (shape a).2)%nat) as [Hc|Hc].
  - rewrite !decide_True by (split; lia). by apply flipped_lookup.
  - by rewrite !decide_False by (intros [_ ?]; done).
Qed.

Lemma np_flip0_well_shaped a : well_shaped a → well_shaped (np_flip0 a).
Proof. unfold well_shaped, np_flip0, on_data. simpl. apply flipped_length. Qed.

Section BandRasterizerProperties.

Variables ND_OBPT ND_NA : float.
Variable fillnodata : ndarray → list bool → nat → nat → ndarray.

Local Abbreviation pbf := (process_band_file ND_OBPT ND_NA fillnodata).

Lemma finish_data (f : BandFile) threshold (d : list float) :
  let mask := (fun v => fgt v threshold) <$> d in
  let d1 := assign_where mask (fun _ => NaN) d in
  let d2 := assign_where ((fun v => feq v (Fin 0)) <$> d1) (fun _ => NaN) d1 in
  match factors f with
  | Some (d0, d1') =>
      assign_where (negb <$> mask) (fun v => fadd v d1')
        (assign_where (negb <$> mask) (fun v => fmul v d0) d2)
  | None => d2
  end = finished_cell f threshold <$> d.
Proof.
  unfold finished_cell, corrected, assign_where.
  destruct (factors f) as [[d0 d1']|]; induction d as [|c d IH]; simpl in *;
    try done; f_equal; try apply IH;
    destruct (fgt c threshold); simpl; try done;
    destruct (feq c (Fin 0)); simpl; done.
Qed.

(** [process_band_file] in three steps: the samples, the scatter, and the
    cell-by-cell finish of the filled image. *)
Lemma process_band_file_steps geofile g threshold a :
  pbf geofile g threshold = Ok a →
  ∃ f s image,
    file geofile = Some f ∧ band_samples ND_NA f g = Ok s ∧
    setitem_index
      (np_zeros (Z.to_nat (out_image_shape g).1, Z.to_nat (out_image_shape g).2))
      (y_index g) (x_index g) s = Ok image ∧
    shape a = shape (_fill_nodata fillnodata (before_fill ND_OBPT image) (Fin 0) 0 10) ∧
    data a = finished_cell f threshold
               <$> data (_fill_nodata fillnodata (before_fill ND_OBPT image) (Fin 0) 0 10).
Proof.
  unfold process_band_file. intros H. do 9 inv_bind H.
  destruct (file geofile) as [f|]; [|done]. injection E0 as <-.
  exists f, v3, v7. split; [done|]. split.
  { unfold band_samples. rewrite E1. cbn [mbind result_bind]. rewrite E2. exact E3. }
  split; [exact E7|]. injection H as <-.
  fold (before_fill ND_OBPT v7).
  set (filled := _fill_nodata fillnodata (before_fill ND_OBPT v7) (Fin 0) 0 10).
  pose proof (finish_data f threshold (data filled)) as Hdata. simpl in Hdata.
  split.
  - by destruct (factors f) as [[d0 d1]|].
  - rewrite <- Hdata. by destruct (factors f) as [[d0 d1]|].
Qed.

(** C9.  Whenever [process_band_file] returns a grid, its scatter step has
    written the selected samples of the band into a zero grid of the shape
    [out_image_shape], in the order of the index arrays, and the grid returned
    is made from this scattered grid (flipped, gap-filled, finished cell by
    cell).  In the scattered grid a cell that is the target of two or more
    samples holds the value of the last of them, a cell that is the target of
    exactly one sample holds that sample's value, and a cell that no sample
    targets keeps its zero. *)
Theorem scatter_last_write_wins geofile g threshold a :
  pbf geofile g threshold = Ok a →
  let shp := (Z.to_nat (out_image_shape g).1, Z.to_nat (out_image_shape g).2) in
  ∃ f samples image,
    file geofile = Some f ∧ band_samples ND_NA f g = Ok samples ∧
    setitem_index (np_zeros shp) (y_index g) (x_index g) samples = Ok image ∧
    shape image = shp ∧
    (∀ k r c v,
        targets shp (y_index g) (x_index g) k r c → samples !! k = Some v →
        (∀ k', (k < k')%nat → ¬ targets shp (y_index g) (x_index g) k' r c) →
        cell image r c = Some v) ∧
    (∀ k r c v,
        targets shp (y_index g) (x_index g) k r c → samples !! k = Some v →
        (∀ k', targets shp (y_index g) (x_index g) k' r c → k' = k) →
        cell image r c = Some v) ∧
    (∀ r c,
        (r < shp.1)%nat → (c < shp.2)%nat →
        (∀ k, ¬ targets shp (y_index g) (x_index g) k r c) →
        cell image r c = Some (Fin 0)) ∧
    shape a = shape (_fill_nodata fillnodata (before_fill ND_OBPT image) (Fin 0) 0 10) ∧
    data a = finished_cell f threshold
               <$> data (_fill_nodata fillnodata (before_fill ND_OBPT image) (Fin 0) 0 10).
Proof.
  intros H shp.
  destruct (process_band_file_steps _ _ _ _ H)
    as (f & samples & image & Hf & Hs & Himg & Hshape & Hdata).
  fold shp in Himg. clearbody shp. exists f, samples, image.
  pose proof (np_full_well_shaped shp (Fin 0)) as Hwf.
  assert (∀ k r c v,
        targets shp (y_index g) (x_index g) k r c → samples !! k = Some v →
        (∀ k', (k < k')%nat → ¬ targets shp (y_index g) (x_index g) k' r c) →
        cell image r c = Some v) as Hlast.
  { intros k r c v Hk Hv Hl.
    by eapply (setitem_index_last (np_zeros shp) _ _ samples image k). }
  split; [done|]. split; [done|]. split; [done|].
  split; [by apply setitem_index_shape in Himg as [-> _]|].
  split; [exact Hlast|]. split; [|split; [|done]].
  - intros k r c v Hk Hv Honly. apply (Hlast k); [done..|].
    intros k' Hlt Hk'. apply Honly in Hk'. lia.
  - intros r c Hr Hc Hno.
    rewrite (setitem_index_untouched _ _ _ _ _ r c Himg) by done.
    unfold cell, np_zeros, np_full. simpl. rewrite decide_True by done.
    apply lookup_replicate_2. nia.
Qed.

(** As long as the gap filler keeps the shape of what it fills, the grid has
    the shape of the index, with one cell per position. *)
Lemma process_band_file_grid_shape geofile g threshold a :
  (∀ img m s d, shape (fillnodata img m s d) = shape img ∧
                length (data (fillnodata img m s d)) = length (data img)) →
  pbf geofile g threshold = Ok a →
  shape a = (Z.to_nat (out_image_shape g).1, Z.to_nat (out_image_shape g).2) ∧
  well_shaped a.
Proof.
  intros Hfill H. destruct (process_band_file_steps _ _ _ _ H)
    as (f & s & image & _ & _ & Hscatter & Hshape & Hdata).
  apply setitem_index_shape in Hscatter as [Himg Hwf].
  specialize (Hwf (np_full_well_shaped _ _)).
  unfold well_shaped. rewrite Hdata, Hshape, length_fmap. unfold _fill_nodata.
  destruct (Hfill (before_fill ND_OBPT image)
              ((fun v => negb (feq v (Fin 0))) <$> data (before_fill ND_OBPT image)) 0%nat 10%nat)
    as [-> ->].
  apply np_flip0_well_shaped in Hwf.
  unfold before_fill, on_data, well_shaped in *. simpl in *.
  unfold assign_where. rewrite !length_zip_with, !length_fmap, !length_zip_with, !length_fmap.
  split; [exact Himg|]. rewrite Himg in *. simpl in *. lia.
Qed.

End BandRasterizerProperties.


(** *** Examples for the rasterizer *)

(** Three samples on a 2 x 2 grid, the first and the third on cell (0, 0):
    in the scattered grid the cell holds the third value, and the band grid,
    flipped, has it in row 1. *)
Lemma scatter_last_write_wins_witness :
  ∃ image,
    setitem_index (np_zeros (2, 2)%nat) [0; 1; 0] [0; 1; 0]
      [Fin 100; Fin 200; Fin 300] = Ok image ∧
    cell image 0 0 = Some (Fin 300) ∧ cell image 1 1 = Some (Fin 200) ∧
    cell image 0 1 = Some (Fin 0) ∧
    rasterize svi01_overlap overlap_index
    = Ok {| shape := shape image;
            data := finished_cell svi01_contents (Fin 60000)
                      <$> data (before_fill viirs_ND_OBPT image) |}.
Proof.
  destruct (scatter_last_write_wins viirs_ND_OBPT viirs_ND_NA no_fill
              svi01_overlap overlap_index (Fin 60000)
              {| shape := (2, 2)%nat; data := [NaN; Fin 2.00; Fin 3.00; NaN] |})
    as (f & samples & image & Hf & Hs & Himg & Hshape & Hlast & Honly & Hzero & Ha & Hd).
  - vm_compute. reflexivity.
  - injection Hf as <-. vm_compute in Hs. injection Hs as <-.
    exists image. split; [exact Himg|].
    split; [|split; [|split]].
    + apply (Hlast 2%nat); [by exists 0, 0 | reflexivity |].
      intros k' Hlt (y & x & Hk' & _).
      do 3 (destruct k' as [|k']; [lia|]). discriminate.
    + apply (Honly 1%nat); [by exists 1, 1 | reflexivity |].
      intros k' (y & x & Hy & Hx & Hr & Hc).
      destruct k' as [|[|[|k']]]; simpl in *; simplify_eq; try done.
    + apply Hzero; [simpl; lia | simpl; lia |].
      intros k (y & x & Hy & Hx & Hr & Hc).
      destruct k as [|[|[|k]]]; simpl in *; simplify_eq.
    + vm_compute in Himg. injection Himg as <-. vm_compute. reflexivity.
Defined.

(** ** CompositeAssembler *)

Lemma remove_dups_constant {A} `{EqDecision A} (l : list A) b :
  l ≠ [] → (∀ x, x ∈ l → x = b) → remove_dups l = [b].
Proof.
  induction l as [|a l IH]; intros Hne Hall; [done|].
  assert (a = b) as -> by (apply Hall, list_elem_of_here).
  cbn [remove_dups]. destruct (decide_rel _ b l) as [Hin|Hnin].
  - apply IH; [by intros -> ; apply not_elem_of_nil in Hin|].
    intros x Hx. by apply Hall, list_elem_of_further.
  - destruct l as [|a' l]; [done|]. exfalso. apply Hnin.
    rewrite (Hall a') by apply list_elem_of_further, list_elem_of_here.
    apply list_elem_of_here.
Qed.

Lemma remove_dups_nonempty {A} `{EqDecision A} (l : list A) :
  l ≠ [] → length (remove_dups l) ≠ 0%nat.
Proof.
  destruct l as [|a l]; [done|]. intros _ Hlen.
  apply length_zero_iff_nil in Hlen.
  assert (a ∈ remove_dups (a :: l)) as Hin
    by apply elem_of_remove_dups, list_elem_of_here.
  rewrite Hlen in Hin. by apply not_elem_of_nil in Hin.
Qed.

Section AssemblerProperties.

Variable run_band : GeofileInfo → ProcessedGeolocFile → result ndarray.
Variable geoloc_file : ProcessedGeolocFile.

Local Abbreviation arrays_of files := (band_or_none run_band geoloc_file <$> files).

Lemma all_failed_iff files :
  forallb is_None (arrays_of files) = true ↔
  ∀ f, f ∈ files → ∃ e, run_band f geoloc_file = Err e.
Proof.
  induction files as [|f files IH]; simpl.
  - split; [|done]. intros _ f Hf. by apply not_elem_of_nil in Hf.
  - rewrite andb_true_iff, IH. unfold band_or_none. split.
    + intros [Hf Hrest] f' [->|Hin]%elem_of_cons; [|by apply Hrest].
      destruct (run_band f geoloc_file); [done | eauto].
    + intros Hall. split.
      * destruct (Hall f) as [e ->]; [apply list_elem_of_here | done].
      * intros f' Hf'. by apply Hall, list_elem_of_further.
Qed.

(** The shape that [next(v.shape for v in arrays if v is not None)] finds is
    that of the first band that succeeded. *)
Lemma first_success_shape files k fk a0 :
  files !! k = Some fk → run_band fk geoloc_file = Ok a0 →
  (∀ j fj, (j < k)%nat → files !! j = Some fj →
           ∃ e, run_band fj geoloc_file = Err e) →
  head (shape <$> omap id (arrays_of files)) = Some (shape a0).
Proof.
  revert k. induction files as [|f files IH]; intros k Hk Hok Hbefore; [done|].
  destruct k as [|k]; simpl in *.
  - injection Hk as ->. unfold band_or_none at 1. by rewrite Hok.
  - destruct (Hbefore 0%nat f) as [e He]; [lia | done |].
    unfold band_or_none at 1. rewrite He. simpl.
    apply (IH k); [done..|].
    intros j fj Hj Hfj. apply (Hbefore (S j)); [lia | done].
Qed.

Lemma band_check_passes files :
  files ≠ [] → (∀ f f', f ∈ files → f' ∈ files → band f = band f') →
  py_assert (bool_decide (0 < length files)%nat) = Ok tt ∧
  py_assert (bool_decide (length (remove_dups (band <$> files)) = 1%nat)) = Ok tt.
Proof.
  intros Hne Hsame. destruct files as [|f0 files]; [done|]. split.
  - rewrite bool_decide_eq_true_2; [done | simpl; lia].
  - rewrite (remove_dups_constant _ (band f0)); [done | done |].
    intros b (f & -> & Hf)%list_elem_of_fmap.
    apply Hsame; [done | apply list_elem_of_here].
Qed.

(** C2.  For the band descriptors of a file set, a non-empty list of one
    band type: if at least one band succeeds, the result holds exactly one
    grid per descriptor, in order, the grid of a failed band being an all-NaN
    grid of the shape of the first band that succeeded; if every band fails,
    ProcessingException is raised. *)
Theorem band_files_tolerate_failures files :
  files ≠ [] → (∀ f f', f ∈ files → f' ∈ files → band f = band f') →
  (∀ k fk a0,
      files !! k = Some fk → run_band fk geoloc_file = Ok a0 →
      (∀ j fj, (j < k)%nat → files !! j = Some fj →
               ∃ e, run_band fj geoloc_file = Err e) →
      ∃ bands,
        _process_band_files run_band geoloc_file files = Ok bands ∧
        length bands = length files ∧
        ∀ i f, files !! i = Some f →
          bands !! i = Some match run_band f geoloc_file with
                            | Ok a => a
                            | Err _ => np_full (shape a0) NaN
                            end) ∧
  ((∀ f, f ∈ files → ∃ e, run_band f geoloc_file = Err e) →
   _process_band_files run_band geoloc_file files = Err ProcessingException).
Proof.
  intros Hne Hsame.
  destruct (band_check_passes files Hne Hsame) as [Hlen Hband].
  unfold _process_band_files. rewrite Hlen, Hband. cbn [mbind result_bind].
  split.
  - intros k fk a0 Hk Hok Hbefore.
    destruct (forallb is_None _) eqn:Hall.
    { rewrite all_failed_iff in Hall.
      destruct (Hall fk) as [e He]; [by eapply list_elem_of_lookup_2|]. congruence. }
    rewrite (first_success_shape files k fk a0) by done.
    rewrite bool_decide_eq_true_2.
    2:{ apply remove_dups_nonempty. intros Hnil.
        pose proof (first_success_shape files k fk a0 Hk Hok Hbefore) as Hhd.
        by rewrite Hnil in Hhd. }
    cbn [py_assert or_raise mbind result_bind]. eexists. split; [done|].
    unfold np_array. split; [by rewrite !length_fmap|].
    intros i f Hf. rewrite !list_lookup_fmap, Hf. simpl.
    unfold band_or_none. by destruct (run_band f geoloc_file).
  - intros Hall. apply (proj2 (all_failed_iff files)) in Hall. by rewrite Hall.
Qed.

(** The assertion on the shapes never fails: when [_process_band_files] raises
    AssertionError, it is for an empty list or for mixed band types. *)
Lemma shape_assertion_never_fails files :
  _process_band_files run_band geoloc_file files = Err AssertionError →
  files = [] ∨ length (remove_dups (band <$> files)) ≠ 1%nat.
Proof.
  unfold _process_band_files. intros H.
  destruct files as [|f0 files]; [by left|]. right.
  rewrite (bool_decide_eq_true_2 (0 < length (f0 :: files))%nat) in H
    by (simpl; lia).
  cbn [py_assert mbind result_bind] in H.
  destruct (bool_decide (length (remove_dups (band <$> f0 :: files)) = 1%nat))
    eqn:Hb; [|by apply bool_decide_eq_false in Hb].
  exfalso.
  cbn [py_assert mbind result_bind] in H.
  destruct (forallb is_None _) eqn:Hall; [done|].
  assert (omap id (arrays_of (f0 :: files)) ≠ []) as Hsome.
  { intros Hnil. apply not_true_iff_false in Hall. apply Hall.
    clear -Hnil. induction (f0 :: files) as [|f l IH]; [done|].
    simpl in *. destruct (band_or_none _ _ f); [done | by apply IH]. }
  rewrite bool_decide_eq_true_2 in H.
  2:{ apply remove_dups_nonempty. intros Hnil%fmap_nil_inv. done. }
  cbn [py_assert mbind result_bind] in H.
  destruct (omap id _); [done|]. simpl in H. done.
Qed.

(** A composite that is returned: one band succeeded, and every band that
    failed is filled in with its shape. *)
Lemma process_band_files_Ok_inv files bands :
  _process_band_files run_band geoloc_file files = Ok bands →
  ∃ f0 a0,
    f0 ∈ files ∧ run_band f0 geoloc_file = Ok a0 ∧
    bands = (fun f => match run_band f geoloc_file with
                      | Ok a => a
                      | Err _ => np_full (shape a0) NaN
                      end) <$> files.
Proof.
  unfold _process_band_files. intros H. inv_bind H. inv_bind H.
  destruct (forallb is_None _) eqn:Hall; [done|].
  inv_bind H. inv_bind H. injection H as <-.
  destruct (omap id (band_or_none run_band geoloc_file <$> files)) as [|a0 rest] eqn:Hsucc;
    [done|]. simpl in E2. assert (v2 = shape a0) as -> by congruence.
  assert (a0 ∈ omap id (band_or_none run_band geoloc_file <$> files)) as Hin
    by (rewrite Hsucc; apply list_elem_of_here).
  apply list_elem_of_omap in Hin as (o & Ho & Hid). simpl in Hid. subst o.
  apply list_elem_of_fmap in Ho as (f0 & Hf0 & Hin).
  unfold band_or_none in Hf0.
  destruct (run_band f0 geoloc_file) as [a|] eqn:Hrun; [|done]. injection Hf0 as ->.
  exists f0, a. split; [done|]. split; [done|].
  unfold np_array. rewrite <- list_fmap_compose. apply list_fmap_ext.
  intros i f _. simpl. unfold band_or_none. by destruct (run_band f geoloc_file).
Qed.

End AssemblerProperties.


(** *** Examples for the assembler *)

Lemma three_bands_one_type f f' :
  f ∈ three_bands → f' ∈ three_bands → band f = band f'.
Proof.
  unfold three_bands. rewrite !elem_of_cons.
  intros [->|[->|[->|Hf]]] [->|[->|[->|Hf']]]; try reflexivity;
    exfalso; eapply not_elem_of_nil; eassumption.
Defined.

(** Of three bands the second fails: the composite has three grids, the
    second all NaN and of the shape of the first. *)
Lemma band_files_tolerate_failures_witness :
  ∃ bands,
    _process_band_files rasterize grid_index three_bands = Ok bands ∧
    length bands = 3%nat ∧
    bands !! 1%nat = Some (np_full (2, 2)%nat NaN).
Proof.
  destruct (band_files_tolerate_failures rasterize grid_index three_bands)
    as [Hsome _].
  - discriminate.
  - exact three_bands_one_type.
  - destruct (Hsome 0%nat (band_file "SVI01" "I"
                (Some [Fin 100; Fin 200; Fin 300; Fin 400]))
                {| shape := (2, 2)%nat;
                   data := [Fin 3.00; Fin 4.00; Fin 1.00; Fin 2.00] |})
      as (bands & Hbands & Hlen & Hcells).
    + reflexivity.
    + vm_compute. reflexivity.
    + intros j fj Hj. lia.
    + exists bands. split; [exact Hbands|]. split; [exact Hlen|].
      apply (Hcells 1%nat (band_file "SVI02" "I" None)). reflexivity.
Defined.


(** ** DerivedProductCalculator *)

Lemma np_binop_Ok {A B C} (f : A → B → C) a b :
  length a = length b → np_binop f a b = Ok (zip_with f a b).
Proof. intros H. unfold np_binop. by rewrite decide_True. Qed.

Lemma assign_where_const (p : float → bool) c d :
  assign_where (p <$> d) (fun _ => c) d = (fun v => if p v then c else v) <$> d.
Proof. unfold assign_where. induction d as [|v d IH]; [done|]. simpl. f_equal. apply IH. Qed.

Lemma zip_with_fmap_both {A B C} (f : A → A → B) (g : B → A → C) (h : B → B) (a b : list A) :
  zip_with g (h <$> zip_with f b a) a = zip_with (fun x y => g (h (f y x)) x) a b.
Proof.
  revert b. induction a as [|x a IH]; intros [|y b]; try done.
  simpl. f_equal. apply IH.
Qed.

Lemma ndvi_pointwise svi01 svi02 :
  length svi01 = length svi02 →
  ndvi svi01 svi02 = Ok (zip_with ndvi_pixel svi01 svi02).
Proof.
  intros Hlen. unfold ndvi.
  rewrite (np_binop_Ok fsub) by done. cbn [mbind result_bind].
  rewrite (np_binop_Ok fadd) by done. cbn [mbind result_bind].
  rewrite np_binop_Ok by (rewrite !length_zip_with; lia).
  f_equal. clear Hlen. revert svi02.
  induction svi01 as [|x a IH]; intros [|y b]; try done.
  simpl. f_equal. apply IH.
Qed.

Lemma ndvi_pixel_in_range (r n : Q) :
  (0 <= r)%Q → (0 <= n)%Q → ¬ (r + n == 0)%Q →
  ∃ q, ndvi_pixel (Fin r) (Fin n) = Fin q ∧ (-1 <= q <= 1)%Q.
Proof.
  intros Hr Hn Hsum. unfold ndvi_pixel. simpl.
  destruct (Qeq_bool (r + n) 0) eqn:Hz; [by apply Qeq_bool_iff in Hz|].
  eexists. split; [reflexivity|].
  assert (0 < r + n)%Q as Hpos by (apply Qle_lteq in Hr as [Hr|Hr]; lra).
  split.
  - apply Qle_shift_div_l; [done | lra].
  - apply Qle_shift_div_r; [done | lra].
Qed.

(** C7, as the code has it.  For equal-shaped red and near-infrared arrays
    the computation (nir - red) / (red + nir) never raises; where red and nir
    are both zero the result is NaN; where both are finite and non-negative
    and red + nir is nonzero the result lies in [-1, 1]. *)
Theorem ndvi_total_and_bounded svi01 svi02 :
  length svi01 = length svi02 →
  ∃ out,
    ndvi svi01 svi02 = Ok out ∧ length out = length svi01 ∧
    ∀ i red nir, svi01 !! i = Some red → svi02 !! i = Some nir →
      ∃ v, out !! i = Some v ∧
        (feq red (Fin 0) = true → feq nir (Fin 0) = true → v = NaN) ∧
        (∀ r n, red = Fin r → nir = Fin n → (0 <= r)%Q → (0 <= n)%Q →
                ¬ (r + n == 0)%Q → ∃ q, v = Fin q ∧ (-1 <= q <= 1)%Q).
Proof.
  intros Hlen. exists (zip_with ndvi_pixel svi01 svi02).
  split; [by apply ndvi_pointwise|].
  split; [rewrite length_zip_with; lia|].
  intros i red nir Hred Hnir. exists (ndvi_pixel red nir).
  split; [by rewrite lookup_zip_with, Hred, Hnir|]. split.
  - destruct red as [r| | |], nir as [n| | |]; try done. simpl.
    intros Hr%Qeq_bool_iff Hn%Qeq_bool_iff. unfold ndvi_pixel. simpl.
    assert (Qeq_bool (r + n) 0 = true) as -> by (apply Qeq_bool_iff; lra).
    assert (Qeq_bool (n + - r) 0 = true) as -> by (apply Qeq_bool_iff; lra).
    done.
  - intros r n -> ->. apply ndvi_pixel_in_range.
Qed.

Lemma calc_pixel_clamp b1 b2 :
  calc_pixel b1 b2
  = clamp (Fin (-998)) (Fin 998) (fdiv (fmul (Fin 100) (fsub b2 b1)) b1).
Proof.
  unfold calc_pixel, clamp.
  destruct (fgt _ (Fin 998)) eqn:Hgt; [reflexivity | done].
Qed.

Lemma calc_ndvi_dynamics_pointwise b1 b2 :
  length b1 = length b2 →
  calc_ndvi_dynamics b1 b2 = Ok (zip_with calc_pixel b1 b2).
Proof.
  intros Hlen. unfold calc_ndvi_dynamics.
  rewrite (np_binop_Ok fsub) by done. cbn [mbind result_bind].
  rewrite np_binop_Ok by (rewrite length_fmap, length_zip_with; lia).
  cbn [mbind result_bind]. rewrite !assign_where_const. f_equal.
  rewrite zip_with_fmap_both, <- list_fmap_compose.
  clear Hlen. revert b2.
  induction b1 as [|x a IH]; intros [|y b]; try done.
  simpl. f_equal. apply IH.
Qed.

Lemma mask_assign_select (f : float → float → float) mask b1 b2 :
  length mask = length b1 → length b1 = length b2 →
  mask_assign mask (replicate (length b1) NaN)
    (zip_with f (mask_select mask b1) (mask_select mask b2))
  = zip_with (fun (m : bool) p => if m then f p.1 p.2 else NaN) mask (zip b1 b2).
Proof.
  revert b1 b2.
  induction mask as [|m mask IH]; intros [|x b1] [|y b2] H1 H2; try done.
  injection H1 as H1. injection H2 as H2.
  destruct m; simpl; f_equal; by apply IH.
Qed.

Lemma clamp_in_range v :
  isnan v = false →
  ∃ q, clamp (Fin (-998)) (Fin 998) v = Fin q ∧ (-998 <= q <= 998)%Q.
Proof.
  intros Hv. unfold clamp, flt.
  destruct v as [q| | |]; try done; simpl.
  - unfold Qltb. destruct (Qle_bool q 998) eqn:Hhi; simpl.
    + destruct (Qle_bool (-998) q) eqn:Hlo; simpl.
      * apply Qle_bool_iff in Hhi, Hlo. eauto.
      * exists (-998)%Q. split; [done | lra].
    + exists 998%Q. split; [done | lra].
  - exists 998%Q. split; [done | lra].
  - exists (-998)%Q. split; [done | lra].
Qed.

(** C6.  For equal-shaped inputs the NDVI-dynamics output is, pixel by pixel:
    -999 where either input is the cloud sentinel -2, also when the other is
    NaN; NaN where either input is NaN and neither is the sentinel; otherwise
    100*(b2-b1)/b1 clamped to [-998, 998], so that a quotient that is a number
    ends up within the interval.  In particular b1 = 0.001, b2 = 10 gives 998
    and b1 = 0.001, b2 = -10 gives -998. *)
Theorem ndvi_dynamics_sentinels b1_data b2_data :
  length b1_data = length b2_data →
  (∃ b3,
      process_ndvi_dynamics b1_data b2_data = Ok b3 ∧
      length b3 = length b1_data ∧
      ∀ i b1 b2, b1_data !! i = Some b1 → b2_data !! i = Some b2 →
        b3 !! i = Some (dynamics_pixel_spec b1 b2)) ∧
  (∀ v, isnan v = false →
        ∃ q, clamp (Fin (-998)) (Fin 998) v = Fin q ∧ (-998 <= q <= 998)%Q) ∧
  calc_ndvi_dynamics [Fin 0.001] [Fin 10] = Ok [Fin 998] ∧
  calc_ndvi_dynamics [Fin 0.001] [Fin (-10)] = Ok [Fin (-998)].
Proof.
  intros Hlen. split; [|split; [exact clamp_in_range | split; reflexivity]].
  unfold process_ndvi_dynamics.
  rewrite (np_binop_Ok orb) by (rewrite !length_fmap; done).
  cbn [mbind result_bind].
  rewrite (np_binop_Ok orb) by (rewrite !length_fmap; done).
  cbn [mbind result_bind].
  rewrite (np_binop_Ok andb) by (rewrite !length_fmap, !length_zip_with, !length_fmap; lia).
  cbn [mbind result_bind].
  set (nan_mask := zip_with orb (isnan <$> b1_data) (isnan <$> b2_data)).
  set (cloud_mask := zip_with orb _ _).
  set (data_mask := zip_with andb _ _).
  assert (length nan_mask = length b1_data) as Hnan
    by (unfold nan_mask; rewrite length_zip_with, !length_fmap; lia).
  assert (length cloud_mask = length b1_data) as Hcloud
    by (unfold cloud_mask; rewrite length_zip_with, !length_fmap; lia).
  assert (length data_mask = length b1_data) as Hdata
    by (unfold data_mask; rewrite length_zip_with, !length_fmap; lia).
  unfold getitem_mask. rewrite !decide_True by lia. cbn [mbind result_bind].
  rewrite calc_ndvi_dynamics_pointwise
    by (rewrite !mask_select_length; [done | lia | lia]).
  cbn [mbind result_bind].
  unfold setitem_mask_array.
  rewrite decide_True by (rewrite length_replicate; lia).
  rewrite decide_True
    by (rewrite length_zip_with, !mask_select_length; lia).
  cbn [mbind result_bind].
  rewrite mask_assign_select by lia.
  unfold setitem_mask. rewrite decide_True
    by (rewrite !length_zip_with; lia).
  eexists. split; [reflexivity|].
  split; [unfold assign_where; rewrite !length_zip_with; lia|].
  intros i b1 b2 H1 H2. unfold assign_where.
  rewrite !lookup_zip_with.
  unfold cloud_mask, data_mask, nan_mask, cloud_mask.
  rewrite !lookup_zip_with, !list_lookup_fmap, !lookup_zip_with, !list_lookup_fmap.
  rewrite H1, H2. simpl.
  unfold dynamics_pixel_spec. rewrite calc_pixel_clamp.
  destruct (feq b1 (Fin (-2)) || feq b2 (Fin (-2))); [done|].
  by destruct (isnan b1 || isnan b2).
Qed.


(** *** Examples for the derived products *)

(** Red = 1 with nir = -1 sums to zero and gives -inf, not NaN; red = -1
    with nir = 3 gives 2, outside [-1, 1]: C7 as stated does not hold. *)
Lemma ndvi_of_negative_reflectance :
  ndvi [Fin 1; Fin (-1)] [Fin (-1); Fin 3] = Ok [NInf; Fin (4 # 2)] ∧
  feq (fadd (Fin 1) (Fin (-1))) (Fin 0) = true ∧ isnan NInf = false ∧
  ¬ (-1 + 3 == 0)%Q ∧ ¬ (-1 <= 4 # 2 <= 1)%Q.
Proof.
  split; [reflexivity|]. split; [reflexivity|]. split; [reflexivity|].
  split; [discriminate|]. intros [_ H]. by apply Qle_bool_iff in H.
Qed.

Lemma ndvi_total_and_bounded_witness :
  ∃ out, ndvi [Fin 0.2; Fin 0] [Fin 0.6; Fin 0] = Ok out ∧
         out !! 1%nat = Some NaN ∧
         ∃ q, out !! 0%nat = Some (Fin q) ∧ (-1 <= q <= 1)%Q.
Proof.
  destruct (ndvi_total_and_bounded [Fin 0.2; Fin 0] [Fin 0.6; Fin 0])
    as (out & Hout & _ & Hpix); [reflexivity|].
  exists out. split; [exact Hout|]. split.
  - destruct (Hpix 1%nat (Fin 0) (Fin 0)) as (v & Hv & Hzero & _);
      [reflexivity | reflexivity |].
    rewrite Hv, Hzero; reflexivity.
  - destruct (Hpix 0%nat (Fin 0.2) (Fin 0.6)) as (v & Hv & _ & Hrange);
      [reflexivity | reflexivity |].
    destruct (Hrange 0.2%Q 0.6%Q) as (q & -> & Hq);
      [reflexivity | reflexivity | discriminate | discriminate | discriminate |].
    exists q. split; [exact Hv | exact Hq].
Defined.

Lemma ndvi_dynamics_sentinels_witness :
  ∃ b3, process_ndvi_dynamics epoch1 epoch2 = Ok b3 ∧
        b3 !! 0%nat = Some (Fin 998) ∧ b3 !! 1%nat = Some NaN ∧
        b3 !! 2%nat = Some (Fin (-999)) ∧ b3 !! 5%nat = Some (Fin (-999)).
Proof.
  destruct (ndvi_dynamics_sentinels epoch1 epoch2)
    as ((b3 & Hb3 & _ & Hpix) & _); [reflexivity|].
  exists b3. split; [exact Hb3|].
  split; [exact (Hpix 0%nat _ _ eq_refl eq_refl)|].
  split; [exact (Hpix 1%nat _ _ eq_refl eq_refl)|].
  split; [exact (Hpix 2%nat _ _ eq_refl eq_refl)|].
  exact (Hpix 5%nat _ _ eq_refl eq_refl).
Defined.

(** ** Batch driver *)

Section ViirsProcessorProperties.

Variable process_fileset_out : ViirsFileSet → result string.
Variable ndvi_of_composite : string → ViirsFileSet → ndvi_step.
Variable find_filesets : GDALViirsDB → list ViirsFileSet.
Variable now : Q.

Local Abbreviation fileset_outcome :=
  (fileset_outcome process_fileset_out ndvi_of_composite).
Local Abbreviation run_events :=
  (run_events process_fileset_out ndvi_of_composite find_filesets now).
Local Abbreviation pf := (_process_fileset process_fileset_out ndvi_of_composite).
Local Abbreviation each := (process_each process_fileset_out ndvi_of_composite).

Lemma process_fileset_spec fileset self :
  (pf fileset self).2 = fileset_outcome fileset ∧
  ∃ new, trace (pf fileset self).1
         = trace self ++ CallProcessFilesetOut fileset :: new ∧
  ∀ other, has_fileset (persistence self) other = true →
           has_fileset (persistence (pf fileset self).1) other = true.
Proof.
  unfold _process_fileset, fileset_outcome.
  destruct (process_fileset_out fileset) as [processed|e]; simpl.
  { case_bool_decide; simpl.
    - destruct (ndvi_of_composite processed fileset) as [e|[u|e]]; simpl.
      + split; [done|]. eexists. split; [done|]. done.
      + split; [done|]. eexists. split; [by rewrite <- app_assoc|].
        intros other. unfold has_fileset. simpl.
        rewrite !bool_decide_eq_true. set_solver.
      + split; [done|]. eexists. split; [by rewrite <- app_assoc|]. done.
    - split; [done|]. eexists. split; [done|].
      intros other. unfold has_fileset. simpl.
      rewrite !bool_decide_eq_true. set_solver. }
  split; [done|]. eexists. split; [done|]. done.
Qed.

Lemma process_each_extends todo self :
  ∃ new, trace (each todo self).1 = trace self ++ new.
Proof.
  revert self. induction todo as [|f todo IH]; intros self; simpl.
  - exists []. by rewrite app_nil_r.
  - set (self1 := if has_fileset _ _ then _ else _).
    assert (∃ l, trace self1 = trace self ++ l) as [l Hl].
    { unfold self1. destruct (has_fileset _ _); [by eexists [_] | exists []].
      by rewrite app_nil_r. }
    destruct (process_fileset_spec f self1) as (_ & new & Htr & _).
    destruct (pf f self1) as [self2 [e|]]; simpl in *.
    + eexists. by rewrite Htr, Hl, <- !app_assoc.
    + destruct (IH self2) as [new' ->]. eexists.
      by rewrite Htr, Hl, <- !app_assoc.
Qed.

Lemma process_each_reaches pre fileset post self :
  (∀ p, p ∈ pre → fileset_outcome p = None) →
  ∃ before after,
    trace (each (pre ++ fileset :: post) self).1
    = trace self ++ before ++ CallProcessFilesetOut fileset :: after ∧
    (has_fileset (persistence self) fileset = true →
     LogAlreadyPresent (name (geoloc_file fileset)) ∈ before).
Proof.
  revert self. induction pre as [|p pre IH]; intros self Hpre.
  - simpl.
    destruct (process_fileset_spec fileset
                (if has_fileset (persistence self) fileset
                 then emit (LogAlreadyPresent (name (geoloc_file fileset))) self
                 else self)) as (_ & new & Htr & _).
    destruct (pf fileset _) as [self' [e|]]; simpl in *.
    + destruct (has_fileset _ _); simpl in *.
      * eexists [_], (new ++ [_]). rewrite Htr, <- !app_assoc.
        split; [done|]. intros _. apply list_elem_of_here.
      * eexists [], (new ++ [_]). rewrite Htr, <- !app_assoc. by split.
    + destruct (process_each_extends post self') as [rest ->].
      destruct (has_fileset _ _); simpl in *.
      * eexists [_], (new ++ rest). rewrite Htr, <- !app_assoc.
        split; [done|]. intros _. apply list_elem_of_here.
      * eexists [], (new ++ rest). rewrite Htr, <- !app_assoc. by split.
  - simpl. set (self1 := if has_fileset _ p then _ else _).
    assert (persistence self1 = persistence self ∧
            ∃ l, trace self1 = trace self ++ l) as [Hdb [l Hl]].
    { unfold self1. destruct (has_fileset _ _); simpl.
      - split; [done|]. by eexists [_].
      - split; [done|]. exists []. by rewrite app_nil_r. }
    destruct (process_fileset_spec p self1) as (Hout & new & Htr & Hmono).
    rewrite (Hpre p) in Hout by apply list_elem_of_here.
    destruct (pf p self1) as [self2 o]; simpl in *. subst o.
    destruct (IH self2) as (before & after & -> & Hlog).
    { intros q Hq. by apply Hpre, list_elem_of_further. }
    exists (l ++ CallProcessFilesetOut p :: new ++ before), after.
    split; [by rewrite Htr, Hl, <- !app_assoc; simpl; rewrite <- !app_assoc|].
    intros Hhas. rewrite !elem_of_app, elem_of_cons, elem_of_app.
    right. right. right. apply Hlog, Hmono. by rewrite Hdb.
Qed.

(** C10, as the code has it.  Every file set that [find_filesets] returns and
    that the loop reaches, no file set before it having raised, is handed to
    [_process_fileset], also when the store already records it: the
    [has_fileset] test only adds a log record. *)
Theorem recorded_filesets_are_reprocessed self pre fileset post :
  find_filesets (persistence self) = pre ++ fileset :: post →
  (∀ p, p ∈ pre → fileset_outcome p = None) →
  CallProcessFilesetOut fileset ∈ run_events self ∧
  (has_fileset (persistence self) fileset = true →
   LogAlreadyPresent (name (geoloc_file fileset)) ∈ run_events self).
Proof.
  intros Hfound Hpre. unfold run_events, process_recent_files.
  rewrite Hfound.
  set (self0 := if bool_decide _ then _ else _).
  assert (persistence self0 = persistence self ∧
          ∃ l, trace self0 = trace self ++ l) as [Hdb [l Hl]].
  { unfold self0. case_bool_decide; simpl; split; try done; by eexists [_]. }
  destruct (process_each_reaches pre fileset post self0 Hpre)
    as (before & after & Htr & Hlog).
  rewrite Hdb in Hlog.
  assert (trace (match each (pre ++ fileset :: post) self0 with
                 | (s, true) => _set_last_check_time now s
                 | (s, false) => s
                 end) = trace (each (pre ++ fileset :: post) self0).1) as ->.
  { by destruct (each _ _) as [s [|]]. }
  rewrite Htr, Hl, <- !app_assoc, drop_app_length.
  split.
  - rewrite !elem_of_app, elem_of_cons. auto.
  - intros Hhas. rewrite !elem_of_app. auto.
Qed.

End ViirsProcessorProperties.

(** *** Examples for the batch driver *)

(** With both file sets already in the store, a run logs that each is
    present and processes each all the same. *)
Lemma recorded_filesets_are_reprocessed_witness :
  CallProcessFilesetOut day_pass
    ∈ run_events all_composites_written ndvi_written found_both 0 seasoned_processor ∧
  LogAlreadyPresent (name (geoloc_file day_pass))
    ∈ run_events all_composites_written ndvi_written found_both 0 seasoned_processor.
Proof.
  destruct (recorded_filesets_are_reprocessed all_composites_written ndvi_written
              found_both 0 seasoned_processor [night_pass] day_pass [])
    as [Hcall Hlog].
  - reflexivity.
  - intros p Hp. apply list_elem_of_singleton in Hp. rewrite Hp. reflexivity.
  - split; [exact Hcall|]. apply Hlog. vm_compute. reflexivity.
Defined.

(** When the first file set raises, the run ends there and the second one is
    never processed: C10 as stated does not hold. *)
Lemma run_stops_at_first_exception :
  found_both (persistence fresh_processor) = [night_pass; day_pass] ∧
  run_events first_file_corrupted ndvi_written found_both 0 fresh_processor
  = [LogFound 2; CallProcessFilesetOut night_pass; LogException CorruptedFile] ∧
  CallProcessFilesetOut day_pass
    ∉ run_events first_file_corrupted ndvi_written found_both 0 fresh_processor.
Proof.
  split; [reflexivity|].
  assert (run_events first_file_corrupted ndvi_written found_both 0 fresh_processor
          = [LogFound 2; CallProcessFilesetOut night_pass; LogException CorruptedFile])
    as Hrun by (vm_compute; reflexivity).
  split; [exact Hrun|]. rewrite Hrun.
  rewrite !elem_of_cons. intros [H|[H|[H|H]]]; try discriminate.
  by apply not_elem_of_nil in H.
Qed.


(** * Further properties *)

(** ** GeolocationIndexer *)

Lemma round_half_even_bounds q :
  Qfloor q <= round_half_even q <= Qfloor q + 1.
Proof.
  unfold round_half_even. destruct (Qcompare _ _); [destruct (Z.even _)| |]; lia.
Qed.

Lemma round_half_even_mono a b : (a <= b)%Q → round_half_even a <= round_half_even b.
Proof.
  intros Hab. pose proof (Qfloor_resp_le _ _ Hab) as Hfl.
  pose proof (round_half_even_bounds a) as Ha.
  pose proof (round_half_even_bounds b) as Hb.
  destruct (decide (Qfloor a = Qfloor b)) as [Heq|Hne]; [|lia].
  unfold round_half_even in *. rewrite <- Heq in *.
  destruct (Qcompare (a - inject_Z (Qfloor a)) (1 # 2)) eqn:Ca;
    destruct (Qcompare (b - inject_Z (Qfloor a)) (1 # 2)) eqn:Cb;
    try (destruct (Z.even (Qfloor a))); try lia; exfalso;
    repeat match goal with
    | H : (_ ?= _)%Q = Eq |- _ => apply Qeq_alt in H
    | H : (_ ?= _)%Q = Lt |- _ => apply Qlt_alt in H
    | H : (_ ?= _)%Q = Gt |- _ => apply Qgt_alt in H
    end; lra.
Qed.

Lemma np_int_of_int z : in_int64 z = true → np_int_ (of_int z) = z.
Proof.
  intros Hz. unfold np_int_, of_int.
  destruct (Qle_bool 0 (inject_Z z)); rewrite ?Qfloor_Z, ?Qceiling_Z; by rewrite Hz.
Qed.

(** For an indexable coordinate the two conversions are exact. *)
Lemma raw_index_of_rounded scale q :
  ¬ (scale == 0)%Q → indexable scale (Fin q) = true →
  np_int_ (np_round (Fin q)) = round_half_even q ∧
  raw_index scale (Fin q)
  = round_half_even (inject_Z (round_half_even q) / scale).
Proof.
  intros Hs [H1 H2]%andb_true_iff.
  assert (np_int_ (np_round (Fin q)) = round_half_even q) as E1
    by (by apply np_int_of_int).
  split; [done|]. unfold raw_index. rewrite E1. unfold fdiv, of_int.
  destruct (Qeq_bool scale 0) eqn:E; [by apply Qeq_bool_iff in E|].
  by apply np_int_of_int.
Qed.

Lemma rounded_mono (scale : Q) (z1 z2 : Z) :
  (0 < scale)%Q → z1 <= z2 →
  round_half_even (inject_Z z1 / scale) <= round_half_even (inject_Z z2 / scale).
Proof.
  intros Hs Hz. apply round_half_even_mono.
  apply Qmult_le_compat_r.
  - rewrite <- Zle_Qle. done.
  - apply Qlt_le_weak, Qinv_lt_0_compat, Hs.
Qed.

Lemma raw_index_mono scale a b :
  (0 < scale)%Q → (a <= b)%Q →
  indexable scale (Fin a) = true → indexable scale (Fin b) = true →
  raw_index scale (Fin a) <= raw_index scale (Fin b).
Proof.
  intros Hs Hab Ha Hb.
  destruct (raw_index_of_rounded scale a) as [_ ->]; [lra | done |].
  destruct (raw_index_of_rounded scale b) as [_ ->]; [lra | done |].
  apply rounded_mono; [done|]. by apply round_half_even_mono.
Qed.

(** Among indexable coordinates, the one whose rounding is smallest (largest)
    has the smallest (largest) index. *)
Lemma raw_index_least scale (l : list float) v m x0 :
  (0 < scale)%Q → forallb (indexable scale) l = true →
  np_min ((fun v => np_int_ (np_round v)) <$> l) = Ok m →
  np_min (raw_index scale <$> l) = Ok x0 →
  v ∈ l → np_int_ (np_round v) = m → raw_index scale v = x0.
Proof.
  intros Hs Hall Hm Hx0 Hv Hvm.
  apply np_min_Ok in Hm as [_ Hle]. apply np_min_Ok in Hx0 as [Hin Hle0].
  rewrite Forall_fmap, Forall_forall in Hle, Hle0.
  apply list_elem_of_fmap in Hin as (w & -> & Hw).
  specialize (Hle _ Hw). specialize (Hle0 _ Hv). simpl in *.
  rewrite forallb_forall in Hall.
  pose proof (Hall _ (proj1 (list_elem_of_In _ _) Hv)) as Iv.
  pose proof (Hall _ (proj1 (list_elem_of_In _ _) Hw)) as Iw.
  destruct v as [qv| | |]; try done. destruct w as [qw| | |]; try done.
  destruct (raw_index_of_rounded scale qv) as [Ev1 Ev2]; [lra | done |].
  destruct (raw_index_of_rounded scale qw) as [Ew1 Ew2]; [lra | done |].
  rewrite Ev2, Ew2 in *. rewrite Ew1 in Hle. rewrite Ev1 in Hvm. subst m.
  pose proof (rounded_mono scale _ _ Hs Hle). lia.
Qed.

Lemma raw_index_greatest scale (l : list float) v m top :
  (0 < scale)%Q → forallb (indexable scale) l = true →
  np_max ((fun v => np_int_ (np_round v)) <$> l) = Ok m →
  np_max (raw_index scale <$> l) = Ok top →
  v ∈ l → np_int_ (np_round v) = m → raw_index scale v = top.
Proof.
  intros Hs Hall Hm Htop Hv Hvm.
  apply np_max_Ok in Hm as [_ Hle]. apply np_max_Ok in Htop as [Hin Hle0].
  rewrite Forall_fmap, Forall_forall in Hle, Hle0.
  apply list_elem_of_fmap in Hin as (w & -> & Hw).
  specialize (Hle _ Hw). specialize (Hle0 _ Hv). simpl in *.
  rewrite forallb_forall in Hall.
  pose proof (Hall _ (proj1 (list_elem_of_In _ _) Hv)) as Iv.
  pose proof (Hall _ (proj1 (list_elem_of_In _ _) Hw)) as Iw.
  destruct v as [qv| | |]; try done. destruct w as [qw| | |]; try done.
  destruct (raw_index_of_rounded scale qv) as [Ev1 Ev2]; [lra | done |].
  destruct (raw_index_of_rounded scale qw) as [Ew1 Ew2]; [lra | done |].
  rewrite Ev2, Ew2 in *. rewrite Ew1 in Hle. rewrite Ev1 in Hvm. subst m.
  pose proof (rounded_mono scale _ _ Hs Hle). lia.
Qed.

Section GeolocationExtras.

Variable proj_point : float → float → float * float.

(** X1.  The grid that [process_geoloc_file] lays out is tight: some sample
    lies in row 0 and some in column 0; and along an axis whose indices span
    less than 2^63 - 1 before the shift (so that int64 does not wrap around),
    some sample lies in the last row, or column, of [out_image_shape]. *)
Theorem geoloc_grid_is_tight lat lon scale g :
  process_geoloc_file proj_point lat lon scale = Ok g →
  0 ∈ y_index g ∧ 0 ∈ x_index g ∧
  (index_spread scale (projected proj_point lat lon).2 < 2 ^ 63 - 1 →
   (out_image_shape g).1 - 1 ∈ y_index g) ∧
  (index_spread scale (projected proj_point lat lon).1 < 2 ^ 63 - 1 →
   (out_image_shape g).2 - 1 ∈ x_index g).
Proof.
  intros Hg.
  destruct (geoloc_structure _ _ _ _ _ Hg)
    as (_ & _ & x0 & y0 & yt & xt & Hx0 & Hy0 & Hx & Hy & Hyt & Hxt & Hshape & _).
  pose proof (np_min_Ok _ _ Hx0) as [Hx0in _].
  pose proof (np_min_Ok _ _ Hy0) as [Hy0in _].
  apply list_elem_of_fmap in Hx0in as (vx & Hvx & Hinx).
  apply list_elem_of_fmap in Hy0in as (vy & Hvy & Hiny).
  pose proof (np_max_Ok _ _ Hyt) as [Hytin _].
  pose proof (np_max_Ok _ _ Hxt) as [Hxtin _].
  rewrite Hshape. cbn [fst snd].
  split; [|split; [|split]].
  - rewrite Hy. apply list_elem_of_fmap. exists vy. split; [|done].
    rewrite <- Hvy, Z.sub_diag. done.
  - rewrite Hx. apply list_elem_of_fmap. exists vx. split; [|done].
    rewrite <- Hvx, Z.sub_diag. done.
  - intros Hspan.
    destruct (axis_within_int64 _ _ _ _ _ Hy0 Hy Hyt Hspan) as (hi & _ & _ & _ & -> & _).
    by replace (yt + 1 - 1) with yt by lia.
  - intros Hspan.
    destruct (axis_within_int64 _ _ _ _ _ Hx0 Hx Hxt Hspan) as (hi & _ & _ & _ & -> & _).
    by replace (xt + 1 - 1) with xt by lia.
Qed.

(** X2.  For a positive scale, and along an axis whose indices span less
    than 2^63 - 1, the indexer keeps the order of the samples whose
    conversions stay within int64: of two such samples the one with the
    smaller x does not get the larger column, and likewise for y and rows. *)
Theorem geoloc_preserves_order lat lon scale g :
  process_geoloc_file proj_point lat lon scale = Ok g →
  (0 < scale)%Q →
  (index_spread scale (projected proj_point lat lon).1 < 2 ^ 63 - 1 →
   ∀ i j a b ci cj,
      (projected proj_point lat lon).1 !! i = Some (Fin a) →
      (projected proj_point lat lon).1 !! j = Some (Fin b) →
      indexable scale (Fin a) = true → indexable scale (Fin b) = true →
      (a <= b)%Q →
      x_index g !! i = Some ci → x_index g !! j = Some cj → ci <= cj) ∧
  (index_spread scale (projected proj_point lat lon).2 < 2 ^ 63 - 1 →
   ∀ i j a b ri rj,
      (projected proj_point lat lon).2 !! i = Some (Fin a) →
      (projected proj_point lat lon).2 !! j = Some (Fin b) →
      indexable scale (Fin a) = true → indexable scale (Fin b) = true →
      (a <= b)%Q →
      y_index g !! i = Some ri → y_index g !! j = Some rj → ri <= rj).
Proof.
  intros Hg Hs.
  destruct (geoloc_structure _ _ _ _ _ Hg)
    as (_ & _ & x0 & y0 & yt & xt & Hx0 & Hy0 & Hx & Hy & Hyt & Hxt & _).
  split.
  - intros Hspan i j a b ci cj Hi Hj Ha Hb Hab.
    destruct (axis_within_int64 _ _ _ _ _ Hx0 Hx Hxt Hspan) as (hi & _ & -> & _).
    rewrite !list_lookup_fmap, Hi, Hj. simpl. intros [= <-] [= <-].
    pose proof (raw_index_mono scale a b Hs Hab Ha Hb). lia.
  - intros Hspan i j a b ri rj Hi Hj Ha Hb Hab.
    destruct (axis_within_int64 _ _ _ _ _ Hy0 Hy Hyt Hspan) as (hi & _ & -> & _).
    rewrite !list_lookup_fmap, Hi, Hj. simpl. intros [= <-] [= <-].
    pose proof (raw_index_mono scale a b Hs Hab Ha Hb). lia.
Qed.

(** X3.  For a positive scale and coordinates whose conversions stay within
    int64, the anchors of the geotransform agree with the grid: every sample
    whose rounded x is [geotransform_min_x] lies in column 0, and, when the
    row indices span less than 2^63 - 1, every sample whose rounded y is
    [geotransform_max_y] lies in the last row of the index.  Both anchors
    are the rounded coordinate of some sample. *)
Theorem geoloc_anchors_match_grid lat lon scale g :
  process_geoloc_file proj_point lat lon scale = Ok g →
  (0 < scale)%Q →
  (forallb (indexable scale) (projected proj_point lat lon).1 = true →
   ∀ i v, (projected proj_point lat lon).1 !! i = Some v →
          np_int_ (np_round v) = geotransform_min_x g →
          x_index g !! i = Some 0) ∧
  (forallb (indexable scale) (projected proj_point lat lon).2 = true →
   index_spread scale (projected proj_point lat lon).2 < 2 ^ 63 - 1 →
   ∀ i v, (projected proj_point lat lon).2 !! i = Some v →
          np_int_ (np_round v) = geotransform_max_y g →
          y_index g !! i = Some ((out_image_shape g).1 - 1)) ∧
  (∃ i v, (projected proj_point lat lon).1 !! i = Some v ∧
          np_int_ (np_round v) = geotransform_min_x g) ∧
  (∃ i v, (projected proj_point lat lon).2 !! i = Some v ∧
          np_int_ (np_round v) = geotransform_max_y g).
Proof.
  intros Hg Hs.
  destruct (geoloc_structure _ _ _ _ _ Hg)
    as (_ & _ & x0 & y0 & yt & xt & Hx0 & Hy0 & Hx & Hy & Hyt & Hxt
        & Hshape & Hminx & Hmaxy & _).
  split; [|split; [|split]].
  - intros Hall i v Hi Hv. rewrite Hx, list_lookup_fmap, Hi. simpl.
    rewrite (raw_index_least scale _ v _ x0 Hs Hall Hminx Hx0);
      [by rewrite Z.sub_diag | by eapply list_elem_of_lookup_2 | done].
  - intros Hall Hspan i v Hi Hv. rewrite Hshape. cbn [fst snd].
    destruct (axis_within_int64 _ _ _ _ _ Hy0 Hy Hyt Hspan)
      as (hi & Hhi & Hy' & -> & -> & _).
    rewrite Hy', list_lookup_fmap, Hi. simpl.
    rewrite (raw_index_greatest scale _ v _ hi Hs Hall Hmaxy Hhi);
      [f_equal; lia | by eapply list_elem_of_lookup_2 | done].
  - apply np_min_Ok in Hminx as [Hin _].
    apply list_elem_of_fmap in Hin as (v & Hv & Hin).
    apply list_elem_of_lookup in Hin as [i Hi]. eauto.
  - apply np_max_Ok in Hmaxy as [Hin _].
    apply list_elem_of_fmap in Hin as (v & Hv & Hin).
    apply list_elem_of_lookup in Hin as [i Hi]. eauto.
Qed.

End GeolocationExtras.

(** ** BandRasterizer *)

Section BandExtras.

Variables ND_OBPT ND_NA : float.
Variable fillnodata : ndarray → list bool → nat → nat → ndarray.

Local Abbreviation pbf := (process_band_file ND_OBPT ND_NA fillnodata).

Lemma band_samples_Ok_inv f g s :
  band_samples ND_NA f g = Ok s →
  ∃ arr, dataset f = Some arr ∧
         (∀ sdr, bandsdr f = Some sdr → length sdr = length arr) ∧
         length (lonlat_mask g) = length arr ∧
         length s = length (filter (fun m => m = true) (lonlat_mask g)).
Proof.
  unfold band_samples. intros H. inv_bind H. inv_bind H.
  destruct (dataset f) as [arr|]; [|done]. injection E as <-.
  exists arr. split; [done|].
  apply getitem_mask_Ok in H as [Hlen ->].
  rewrite mask_select_length by done.
  destruct (bandsdr f) as [sdr|].
  - unfold setitem_mask in E0. case_decide as Hl; [|done]. injection E0 as <-.
    rewrite length_fmap in Hl. split; [by intros ? [= <-]|].
    unfold assign_where in Hlen. rewrite length_zip_with, length_fmap in Hlen.
    split; [lia | done].
  - injection E0 as <-. by repeat split.
Qed.

Lemma process_band_file_Ok_inv geofile g threshold a :
  pbf geofile g threshold = Ok a → band_ready geofile g.
Proof.
  unfold process_band_file, band_ready. intros H. do 9 inv_bind H.
  unfold _require_band_notimpl in E. destruct (is_band geofile); [|done].
  split; [done|].
  destruct (file geofile) as [f|]; [|done]. injection E0 as <-.
  destruct (band_samples_Ok_inv f g v3) as (arr & Harr & Hsdr & Hlen & Hcount).
  { unfold band_samples. rewrite E1. cbn [mbind result_bind].
    rewrite E2. cbn [mbind result_bind]. exact E3. }
  apply py_assert_Ok, bool_decide_eq_true in E4, E5.
  apply py_assert_Ok in E6. simpl in E6.
  rewrite andb_true_r in E6. apply andb_true_iff in E6 as [Hh Hw].
  apply Z.ltb_lt in Hh, Hw.
  apply setitem_index_Ok_inv in E7 as (_ & _ & Hys & Hxs). simpl in Hys, Hxs.
  rewrite !Z2Nat.id in Hys, Hxs by lia.
  exists f, arr. repeat split; try done; lia.
Qed.

(** X4.  [process_band_file] returns a grid only if the descriptor is a band
    file that can be opened and holds the band sub-dataset, the quality
    flags (if any) and the validity mask have the size of the sub-dataset,
    the index arrays have one entry per selected sample, both dimensions of
    [out_image_shape] exceed 1, and every index is within the shape. *)
Theorem process_band_file_requires geofile g threshold a :
  pbf geofile g threshold = Ok a → band_ready geofile g.
Proof. exact (process_band_file_Ok_inv geofile g threshold a). Qed.

(** X5.  In a grid that [process_band_file] returns, a cell is NaN or the
    corrected value of a count that is neither 0 nor above the threshold;
    without radiometric factors no cell is 0 and no cell exceeds the
    threshold. *)
Theorem band_nodata_is_nan geofile g threshold a :
  pbf geofile g threshold = Ok a →
  ∃ f, file geofile = Some f ∧
    Forall (fun v => isnan v = true ∨
                     ∃ c, v = corrected f c ∧
                          fgt c threshold = false ∧ feq c (Fin 0) = false)
           (data a) ∧
    (factors f = None →
     Forall (fun v => fgt v threshold = false ∧ feq v (Fin 0) = false) (data a)).
Proof.
  intros H. destruct (process_band_file_steps _ _ _ _ _ _ _ H)
    as (f & s & image & Hf & _ & _ & _ & ->).
  exists f. split; [done|]. split.
  - apply Forall_fmap, Forall_forall. intros c _. simpl. unfold finished_cell.
    destruct (fgt c threshold) eqn:Hgt; [by left|].
    destruct (feq c (Fin 0)) eqn:Hz; [by left|]. right. by exists c.
  - intros Hnone. apply Forall_fmap, Forall_forall. intros c _. simpl.
    unfold finished_cell, corrected. rewrite Hnone.
    destruct (fgt c threshold) eqn:Hgt; [done|].
    destruct (feq c (Fin 0)) eqn:Hz; done.
Qed.

(** X6.  As long as the gap filler keeps the shape of what it fills, a grid
    that [process_band_file] returns has the shape [out_image_shape] of the
    index, with one cell per position. *)
Theorem band_grid_has_index_shape geofile g threshold a :
  (∀ img m s d, shape (fillnodata img m s d) = shape img ∧
                length (data (fillnodata img m s d)) = length (data img)) →
  pbf geofile g threshold = Ok a →
  shape a = (Z.to_nat (out_image_shape g).1, Z.to_nat (out_image_shape g).2) ∧
  well_shaped a.
Proof. exact (process_band_file_grid_shape _ _ fillnodata geofile g threshold a). Qed.

Lemma cell_fmap (F : float → float) a r c :
  cell {| shape := shape a; data := F <$> data a |} r c = F <$> cell a r c.
Proof. unfold cell. simpl. case_decide; [apply list_lookup_fmap | done]. Qed.

Lemma before_fill_cell image r c v :
  well_shaped image → (r < (shape image).1)%nat →
  cell image r c = Some v →
  isnan v = false → feq v ND_OBPT = false →
  cell (before_fill ND_OBPT image) ((shape image).1 - 1 - r) c = Some v.
Proof.
  intros Hwf Hr Hcell Hnan Hobpt. unfold before_fill, on_data. simpl.
  rewrite !assign_where_const.
  pose proof (np_flip0_cell image ((shape image).1 - 1 - r) c Hwf ltac:(lia)) as Hflip.
  replace ((shape image).1 - 1 - ((shape image).1 - 1 - r))%nat with r in Hflip by lia.
  rewrite Hcell in Hflip.
  unfold cell in *. simpl in *. case_decide; [|done].
  rewrite !list_lookup_fmap, Hflip. simpl. by rewrite Hobpt, Hnan.
Qed.

(** X7.  With a gap filler that leaves valid cells alone: a sample that is
    the last to be written to cell (r, c) of the scatter grid, and that is
    neither NaN, nor the fill code, nor 0, ends up in row (rows - 1 - r),
    column c of the grid that [process_band_file] returns, as NaN when it
    exceeds the threshold and radiometrically corrected otherwise. *)
Theorem band_sample_placement geofile g threshold a f s k r c v :
  (∀ img m sm d, shape (fillnodata img m sm d) = shape img) →
  (∀ img m sm d i, m !! i = Some true →
                   data (fillnodata img m sm d) !! i = data img !! i) →
  pbf geofile g threshold = Ok a →
  file geofile = Some f → band_samples ND_NA f g = Ok s →
  let shp := (Z.to_nat (out_image_shape g).1, Z.to_nat (out_image_shape g).2) in
  targets shp (y_index g) (x_index g) k r c → s !! k = Some v →
  (∀ k', (k < k')%nat → ¬ targets shp (y_index g) (x_index g) k' r c) →
  isnan v = false → feq v ND_OBPT = false → feq v (Fin 0) = false →
  cell a (shp.1 - 1 - r) c
  = Some (if fgt v threshold then NaN else corrected f v).
Proof.
  intros Hshape Hkeep H Hf Hs shp Hk Hv Hlast Hnan Hobpt Hzero.
  destruct (process_band_file_steps _ _ _ _ _ _ _ H)
    as (f' & s' & image & Hf' & Hs' & Hscatter & Hsh & Hdata).
  rewrite Hf in Hf'. injection Hf' as <-. rewrite Hs in Hs'. injection Hs' as <-.
  pose proof (setitem_index_shape _ _ _ _ _ Hscatter) as [Himg Hwf].
  specialize (Hwf (np_full_well_shaped _ _)). simpl in Himg.
  assert (cell image r c = Some v) as Hcell.
  { by eapply (setitem_index_last (np_zeros shp) (y_index g) (x_index g) s image k);
      [apply np_full_well_shaped|..]. }
  assert (r < shp.1)%nat as Hr.
  { destruct Hk as (y & x & _ & _ & Hy & _). by eapply norm_index_Ok. }
  assert (c < shp.2)%nat as Hc.
  { destruct Hk as (y & x & _ & _ & _ & Hx). by eapply norm_index_Ok. }
  pose proof (before_fill_cell image r c v Hwf) as Hbf.
  rewrite Himg in Hbf. specialize (Hbf Hr Hcell Hnan Hobpt).
  unfold cell in Hbf |- *. rewrite Hsh, Hdata. unfold _fill_nodata in *.
  rewrite Hshape.
  assert (shape (before_fill ND_OBPT image) = shp) as Hbshape by (by unfold before_fill; simpl).
  rewrite Hbshape in *. subst shp. cbn [fst snd] in *.
  case_decide as Hin; [|done].
  rewrite list_lookup_fmap, Hkeep.
  - rewrite Hbf. simpl. unfold finished_cell. by rewrite Hzero, orb_false_r.
  - rewrite list_lookup_fmap, Hbf. simpl. by rewrite Hzero.
Qed.

End BandExtras.

(** ** CompositeAssembler and the pipeline *)

Section AssemblerExtras.

Variable run_band : GeofileInfo → ProcessedGeolocFile → result ndarray.
Variable geoloc_file : ProcessedGeolocFile.

Lemma process_band_files_Err_inv files e :
  _process_band_files run_band geoloc_file files = Err e →
  (e = AssertionError ∧
   (files = [] ∨ length (remove_dups (band <$> files)) ≠ 1%nat)) ∨
  (e = ProcessingException ∧ files ≠ [] ∧
   length (remove_dups (band <$> files)) = 1%nat ∧
   ∀ f, f ∈ files → ∃ e', run_band f geoloc_file = Err e').
Proof.
  intros H. destruct (decide (e = AssertionError)) as [->|Hne].
  { left. split; [done|]. by eapply shape_assertion_never_fails. }
  right. unfold _process_band_files in H.
  destruct files as [|f0 files]; [by injection H as <-|].
  rewrite (bool_decide_eq_true_2 (0 < length (f0 :: files))%nat) in H by (simpl; lia).
  cbn [py_assert mbind result_bind] in H.
  destruct (bool_decide (length (remove_dups (band <$> f0 :: files)) = 1%nat)) eqn:Hb;
    [|by injection H as <-].
  apply bool_decide_eq_true in Hb.
  cbn [py_assert mbind result_bind] in H.
  destruct (forallb is_None _) eqn:Hall.
  - injection H as <-. split; [done|]. split; [done|]. split; [done|].
    by apply all_failed_iff.
  - exfalso. destruct (bool_decide _); [|by injection H as <-].
    cbn [py_assert mbind result_bind] in H.
    destruct (head _) eqn:Hhd; [done|].
    apply not_true_iff_false in Hall. apply Hall.
    apply head_None, fmap_nil_inv in Hhd.
    clear -Hhd. induction (f0 :: files) as [|f l IH]; [done|].
    simpl in *. destruct (band_or_none _ _ f); [done | by apply IH].
Qed.

(** X8.  [_process_band_files] raises in two ways only.  It raises
    AssertionError exactly when the list is empty or holds more than one
    band type, and ProcessingException exactly when the list is non-empty,
    of one band type, and every band failed.  The exception of a band never
    leaves the function. *)
Theorem band_exceptions_never_escape files :
  (_process_band_files run_band geoloc_file files = Err AssertionError ↔
   files = [] ∨ length (remove_dups (band <$> files)) ≠ 1%nat) ∧
  (_process_band_files run_band geoloc_file files = Err ProcessingException ↔
   files ≠ [] ∧ length (remove_dups (band <$> files)) = 1%nat ∧
   ∀ f, f ∈ files → ∃ e', run_band f geoloc_file = Err e') ∧
  (∀ e, _process_band_files run_band geoloc_file files = Err e →
        e = AssertionError ∨ e = ProcessingException).
Proof.
  split; [|split].
  - split.
    + intros H. by apply process_band_files_Err_inv in H as [[_ H]|[[=] _]].
    + unfold _process_band_files. intros [->|Hmixed]; [done|].
      destruct files as [|f0 files']; [done|].
      rewrite (bool_decide_eq_true_2 (0 < length (f0 :: files'))%nat) by (simpl; lia).
      cbn [py_assert mbind result_bind].
      by rewrite (bool_decide_eq_false_2 _ Hmixed).
  - split.
    + intros H. by apply process_band_files_Err_inv in H as [[[=] _]|[_ H]].
    + intros (Hne & Htype & Hall). unfold _process_band_files.
      destruct files as [|f0 files']; [done|].
      rewrite (bool_decide_eq_true_2 (0 < length (f0 :: files'))%nat) by (simpl; lia).
      cbn [py_assert mbind result_bind].
      rewrite (bool_decide_eq_true_2 _ Htype).
      cbn [py_assert mbind result_bind].
      by rewrite (proj2 (all_failed_iff _ _ (f0 :: files')) Hall).
  - intros e H.
    apply process_band_files_Err_inv in H as [[-> _]|[-> _]]; auto.
Qed.

End AssemblerExtras.

Lemma py_assert_Err c e : py_assert c = Err e → e = AssertionError.
Proof. destruct c; [done | by intros [= <-]]. Qed.

Lemma np_min_Err l e : np_min l = Err e → e = ValueError.
Proof. destruct l; [by intros [= <-] | done]. Qed.

Lemma np_max_Err l e : np_max l = Err e → e = ValueError.
Proof. destruct l; [by intros [= <-] | done]. Qed.

(** The exceptions of the indexer and of the reading before it are those of
    Python and of the raster library, and SubDatasetNotFound. *)
Lemma geoloc_errors proj_point lat lon scale e :
  process_geoloc_file proj_point lat lon scale = Err e →
  e = ValueError ∨ e = AssertionError ∨ e = IndexError.
Proof.
  unfold process_geoloc_file. case_decide as Hlen.
  2:{ case_decide; intros [= <-]; auto. }
  unfold getitem_mask. rewrite !decide_True by (rewrite length_zip_with; lia).
  cbn [mbind result_bind].
  destruct (projection _ _ _) as [x y]. intros H.
  repeat (apply bind_Err_inv in H as [H|(? & _ & H)];
          [first [ apply py_assert_Err in H; auto
                 | apply np_min_Err in H; auto
                 | apply np_max_Err in H; auto ]|]).
  done.
Qed.

Lemma read_geoloc_errors geofile contents e :
  read_geoloc geofile contents = Err e →
  e = AssertionError ∨ e = RasterioIOError ∨ e = SubDatasetNotFound.
Proof.
  unfold read_geoloc, find_subdataset, read_subdataset. intros H.
  destruct (is_geoloc geofile); [|injection H as <-; auto].
  destruct contents as [c|]; [|injection H as <-; auto].
  cbn [py_assert or_raise mbind result_bind] in H.
  destruct (latitude c), (longitude c);
    cbn [mbind result_bind] in H; try done; injection H as <-; auto.
Qed.

Section PipelineProperties.

Variable proj_point : float → float → float * float.
Variables ND_OBPT ND_NA : float.
Variable fillnodata : ndarray → list bool → nat → nat → ndarray.
Variable trim_nodata : list ndarray → list ndarray.

Local Abbreviation pfs :=
  (process_fileset proj_point ND_OBPT ND_NA fillnodata trim_nodata).

(** X9.  The first two checks of [process_fileset] come before everything
    else: a file set without band files raises InvalidData, whatever else is
    wrong with it; and with band files, a band file or a geolocation file
    that cannot be opened raises CorruptedFile, before the geolocation file
    is looked at and whatever else is wrong.  Up to the composite that is
    computed without trimming, these are the only ways in which either
    exception is raised. *)
Theorem process_fileset_errors fileset contents scale :
  (∀ trim,
      band_files fileset = [] →
      process_fileset proj_point ND_OBPT ND_NA fillnodata trim_nodata
        fileset contents scale trim = Err InvalidData) ∧
  (∀ trim,
      band_files fileset ≠ [] →
      (contents = None ∨ ∃ b, b ∈ band_files fileset ∧ file b = None) →
      process_fileset proj_point ND_OBPT ND_NA fillnodata trim_nodata
        fileset contents scale trim = Err CorruptedFile) ∧
  (process_fileset proj_point ND_OBPT ND_NA fillnodata trim_nodata
     fileset contents scale false = Err InvalidData →
   band_files fileset = []) ∧
  (process_fileset proj_point ND_OBPT ND_NA fillnodata trim_nodata
     fileset contents scale false = Err CorruptedFile →
   band_files fileset ≠ [] ∧
   (contents = None ∨ ∃ b, b ∈ band_files fileset ∧ file b = None)).
Proof.
  assert (∀ e, process_fileset proj_point ND_OBPT ND_NA fillnodata trim_nodata
                 fileset contents scale false = Err e →
               (e = InvalidData ∧ band_files fileset = []) ∨
               (e = CorruptedFile ∧ band_files fileset ≠ [] ∧
                (contents = None ∨ ∃ b, b ∈ band_files fileset ∧ file b = None)) ∨
               (e ≠ InvalidData ∧ e ≠ CorruptedFile)) as Hcases.
  { unfold process_fileset. intros e. case_decide as Hlen.
    { intros [= <-]. left. split; [done|]. by apply length_zero_iff_nil. }
    assert (band_files fileset ≠ []) as Hne by (by intros Hnil; rewrite Hnil in Hlen).
    unfold _try_open_fileset.
    destruct (forallb _ _ && _) eqn:Hopen; cbn [mbind result_bind].
    2:{ intros [= <-]. right. left. split; [done|]. split; [done|].
        apply andb_false_iff in Hopen as [Hb|Hc].
        - right. apply not_true_iff_false in Hb.
          destruct (decide (Forall (fun b => is_Some (file b)) (band_files fileset)))
            as [Hall|Hnall].
          + exfalso. apply Hb. apply forallb_forall. intros b Hin.
            apply bool_decide_eq_true. rewrite Forall_forall in Hall.
            by apply Hall, list_elem_of_In.
          + apply not_Forall_Exists in Hnall; [|apply _].
            apply Exists_exists in Hnall as (b & Hin & Hnone).
            exists b. split; [done|].
            destruct (file b) as [bf|] eqn:Hfb; [|done].
            exfalso. apply Hnone. simpl. rewrite Hfb. eauto.
        - left. apply bool_decide_eq_false in Hc. destruct contents; [|done].
          exfalso. by apply Hc. }
    intros H. right. right.
    destruct (read_geoloc _ _) as [[lat lon]|e'] eqn:Hread; cbn [mbind result_bind] in H.
    2:{ injection H as <-.
        apply read_geoloc_errors in Hread as [-> | [-> | ->]]; by split. }
    destruct (process_geoloc_file _ _ _ _) as [index|e'] eqn:Hidx;
      cbn [mbind result_bind] in H.
    2:{ injection H as <-.
        apply geoloc_errors in Hidx as [-> | [-> | ->]]; by split. }
    destruct (_process_band_files _ _ _) as [bands|e'] eqn:Hbands; [done|].
    injection H as <-.
    apply process_band_files_Err_inv in Hbands as [[-> _]|[-> _]]; by split. }
  unfold process_fileset. split; [|split; [|split]].
  - intros trim ->. done.
  - intros trim Hne Hbad. rewrite decide_False by (by destruct (band_files fileset)).
    unfold _try_open_fileset.
    assert (forallb (fun b => bool_decide (is_Some (file b))) (band_files fileset)
            && bool_decide (is_Some contents) = false) as ->; [|done].
    destruct Hbad as [->|(b & Hb & Hfile)].
    + rewrite bool_decide_eq_false_2 by (by intros [? ?]). apply andb_false_r.
    + apply andb_false_iff. left. apply not_true_iff_false. intros Hall.
      rewrite forallb_forall in Hall. apply list_elem_of_In in Hb.
      specialize (Hall _ Hb). apply bool_decide_eq_true in Hall as [? Hs]. congruence.
  - intros H. by destruct (Hcases _ H) as [[_ ?]|[[[=] _]|[? _]]].
  - intros H. by destruct (Hcases _ H) as [[[=] _]|[[_ ?]|[_ ?]]].
Qed.

(** X10.  Without trimming, and as long as the gap filler keeps the shape of
    what it fills, the composite that [process_fileset] returns has one grid
    per band file, all of one shape of at least 2 x 2, each with one cell per
    position. *)
Theorem process_fileset_composite fileset contents scale bands :
  (∀ img m s d, shape (fillnodata img m s d) = shape img ∧
                length (data (fillnodata img m s d)) = length (data img)) →
  pfs fileset contents scale false = Ok bands →
  length bands = length (band_files fileset) ∧
  ∃ h w, (2 <= h)%nat ∧ (2 <= w)%nat ∧
         Forall (fun b => shape b = (h, w) ∧ well_shaped b) bands.
Proof.
  intros Hfill. unfold process_fileset. case_decide as Hlen; [done|]. intros H.
  inv_bind H. inv_bind H. destruct v0 as [lat lon]. inv_bind H. inv_bind H.
  injection H as <-. rename v0 into index.
  apply process_band_files_Ok_inv in E2 as (f0 & a0 & Hin & Hrun & ->).
  split; [by rewrite length_fmap|].
  pose proof (process_band_file_grid_shape _ _ _ _ _ _ _ Hfill Hrun) as [Hshape Hwf].
  pose proof (process_band_file_Ok_inv _ _ _ _ _ _ _ Hrun) as Hready.
  destruct Hready as (_ & _ & _ & _ & _ & _ & _ & _ & _ & Hh & Hw & _).
  exists (Z.to_nat (out_image_shape index).1), (Z.to_nat (out_image_shape index).2).
  split; [lia|]. split; [lia|].
  apply Forall_fmap, Forall_forall. intros f _. simpl.
  destruct (band_call _ _ _ f index) as [a|] eqn:Hf.
  - by apply (process_band_file_grid_shape _ _ _ _ _ _ _ Hfill Hf).
  - rewrite Hshape. split; [done|]. apply np_full_well_shaped.
Qed.

(** X11.  [process_fileset] gets as far as the composite only if the file
    set has band files, all of them can be opened, the geolocation file
    yields latitude and longitude from which an index is built, the band
    files are of one band type, and at least one of them is rasterized on
    that index. *)
Theorem process_fileset_requires fileset contents scale trim bands :
  pfs fileset contents scale trim = Ok bands →
  band_files fileset ≠ [] ∧
  Forall (fun b => is_Some (file b)) (band_files fileset) ∧
  ∃ lat lon index,
    read_geoloc (geoloc_file fileset) contents = Ok (lat, lon) ∧
    process_geoloc_file proj_point lat lon scale = Ok index ∧
    length (remove_dups (band <$> band_files fileset)) = 1%nat ∧
    ∃ b a, b ∈ band_files fileset ∧
           band_call ND_OBPT ND_NA fillnodata b index = Ok a ∧ band_ready b index.
Proof.
  unfold process_fileset. intros H. case_decide as Hlen; [done|].
  inv_bind H. inv_bind H. destruct v0 as [lat lon]. inv_bind H. inv_bind H.
  split; [by intros Hnil; rewrite Hnil in Hlen|]. split.
  - unfold _try_open_fileset in E.
    destruct (forallb _ _) eqn:Hall; [|done].
    apply Forall_forall. intros b Hb. rewrite forallb_forall in Hall.
    apply list_elem_of_In in Hb. specialize (Hall _ Hb).
    by apply bool_decide_eq_true in Hall.
  - exists lat, lon, v0. split; [done|]. split; [done|].
    pose proof E2 as Hassert. unfold _process_band_files in Hassert.
    inv_bind Hassert. inv_bind Hassert.
    apply py_assert_Ok, bool_decide_eq_true in E4. split; [done|].
    apply process_band_files_Ok_inv in E2 as (f0 & a0 & Hin & Hrun & _).
    exists f0, a0. split; [done|]. split; [done|].
    by eapply process_band_file_Ok_inv.
Qed.

End PipelineProperties.

(** ** DerivedProductCalculator and the legend *)

Lemma process_ndvi_dynamics_pointwise b1_data b2_data :
  length b1_data = length b2_data →
  process_ndvi_dynamics b1_data b2_data
  = Ok (zip_with dynamics_pixel_spec b1_data b2_data).
Proof.
  intros Hlen. unfold process_ndvi_dynamics.
  rewrite (np_binop_Ok orb) by (rewrite !length_fmap; done).
  cbn [mbind result_bind].
  rewrite (np_binop_Ok orb) by (rewrite !length_fmap; done).
  cbn [mbind result_bind].
  rewrite (np_binop_Ok andb) by (rewrite !length_fmap, !length_zip_with, !length_fmap; lia).
  cbn [mbind result_bind].
  set (nan_mask := zip_with orb (isnan <$> b1_data) (isnan <$> b2_data)).
  set (cloud_mask := zip_with orb _ _).
  set (data_mask := zip_with andb _ _).
  assert (length nan_mask = length b1_data) as Hnan
    by (unfold nan_mask; rewrite length_zip_with, !length_fmap; lia).
  assert (length cloud_mask = length b1_data) as Hcloud
    by (unfold cloud_mask; rewrite length_zip_with, !length_fmap; lia).
  assert (length data_mask = length b1_data) as Hdata
    by (unfold data_mask; rewrite length_zip_with, !length_fmap; lia).
  unfold getitem_mask. rewrite !decide_True by lia. cbn [mbind result_bind].
  rewrite calc_ndvi_dynamics_pointwise
    by (rewrite !mask_select_length; [done | lia | lia]).
  cbn [mbind result_bind].
  unfold setitem_mask_array.
  rewrite decide_True by (rewrite length_replicate; lia).
  rewrite decide_True
    by (rewrite length_zip_with, !mask_select_length; lia).
  cbn [mbind result_bind].
  rewrite mask_assign_select by lia.
  unfold setitem_mask. rewrite decide_True
    by (rewrite !length_zip_with; lia).
  f_equal. apply list_eq. intros i. unfold assign_where.
  rewrite !lookup_zip_with.
  unfold cloud_mask, data_mask, nan_mask, cloud_mask.
  rewrite !lookup_zip_with, !list_lookup_fmap, !lookup_zip_with, !list_lookup_fmap.
  destruct (b1_data !! i) as [b1|]; [|done].
  destruct (b2_data !! i) as [b2|]; [|done]. simpl.
  unfold dynamics_pixel_spec. rewrite calc_pixel_clamp.
  destruct (feq b1 (Fin (-2)) || feq b2 (Fin (-2))); [done|].
  by destruct (isnan b1 || isnan b2).
Qed.

Lemma process_ndvi_dynamics_Ok_inv b1_data b2_data b3 :
  process_ndvi_dynamics b1_data b2_data = Ok b3 →
  length b1_data = length b2_data ∧
  b3 = zip_with dynamics_pixel_spec b1_data b2_data.
Proof.
  intros H.
  assert (length b1_data = length b2_data) as Hlen.
  { unfold process_ndvi_dynamics in H. inv_bind H.
    unfold np_binop in E. case_decide as Hl; [|done].
    by rewrite !length_fmap in Hl. }
  split; [done|]. rewrite process_ndvi_dynamics_pointwise in H by done. congruence.
Qed.

Lemma clamp_not_sentinel v : feq (clamp (Fin (-998)) (Fin 998) v) (Fin (-999)) = false.
Proof.
  destruct (isnan v) eqn:Hnan.
  - destruct v; done.
  - destruct (clamp_in_range v Hnan) as (q & -> & Hq). simpl.
    apply not_true_iff_false. intros H%Qeq_bool_iff. lra.
Qed.

(** X12.  In the output of [process_ndvi_dynamics] a pixel equals -999 exactly
    when one of the two inputs is the cloud sentinel -2 there: no computed
    value collides with the sentinel. *)
Theorem dynamics_cloud_sentinel_is_unambiguous b1_data b2_data b3 :
  process_ndvi_dynamics b1_data b2_data = Ok b3 →
  length b3 = length b1_data ∧
  ∀ i b1 b2 v,
    b1_data !! i = Some b1 → b2_data !! i = Some b2 → b3 !! i = Some v →
    (feq v (Fin (-999)) = true ↔
     feq b1 (Fin (-2)) = true ∨ feq b2 (Fin (-2)) = true).
Proof.
  intros [Hlen ->]%process_ndvi_dynamics_Ok_inv.
  split; [rewrite length_zip_with; lia|].
  intros i b1 b2 v H1 H2. rewrite lookup_zip_with, H1, H2. simpl. intros [= <-].
  unfold dynamics_pixel_spec. rewrite <- orb_true_iff.
  destruct (feq b1 (Fin (-2)) || feq b2 (Fin (-2))); [done|].
  destruct (isnan b1 || isnan b2); [done|].
  by rewrite clamp_not_sentinel.
Qed.

Lemma clamp_sign (q : Q) :
  ∃ v, clamp (Fin (-998)) (Fin 998) (Fin q) = Fin v ∧
       ((0 < q)%Q ↔ (0 < v)%Q) ∧ ((q < 0)%Q ↔ (v < 0)%Q).
Proof.
  unfold clamp, flt. simpl. unfold Qltb.
  destruct (Qle_bool q 998) eqn:Hhi; simpl.
  - destruct (Qle_bool (-998) q) eqn:Hlo; simpl.
    + exists q. done.
    + exists (-998)%Q. split; [done|].
      apply not_true_iff_false in Hlo. rewrite Qle_bool_iff in Hlo.
      split; split; intros; lra.
  - exists 998%Q. split; [done|].
    apply not_true_iff_false in Hhi. rewrite Qle_bool_iff in Hhi.
    split; split; intros; lra.
Qed.

(** X13.  The sign of the dynamics follows the sign of the baseline: for
    finite, cloud-free inputs, an increase of the second input over a positive
    first input gives a positive value, and an increase over a negative first
    input gives a negative one. *)
Theorem dynamics_sign_follows_baseline b1_data b2_data b3 :
  process_ndvi_dynamics b1_data b2_data = Ok b3 →
  ∀ i p q,
    b1_data !! i = Some (Fin p) → b2_data !! i = Some (Fin q) →
    ¬ (p == -2)%Q → ¬ (q == -2)%Q → ¬ (p == 0)%Q →
    ∃ v, b3 !! i = Some (Fin v) ∧
         ((0 < p)%Q → ((p < q)%Q ↔ (0 < v)%Q)) ∧
         ((p < 0)%Q → ((p < q)%Q ↔ (v < 0)%Q)).
Proof.
  intros [Hlen ->]%process_ndvi_dynamics_Ok_inv i p q H1 H2 Hp2 Hq2 Hp0.
  rewrite lookup_zip_with, H1, H2. simpl.
  unfold dynamics_pixel_spec. simpl.
  assert (Qeq_bool p (-2) = false) as -> by (apply not_true_iff_false; by rewrite Qeq_bool_iff).
  assert (Qeq_bool q (-2) = false) as -> by (apply not_true_iff_false; by rewrite Qeq_bool_iff).
  assert (Qeq_bool p 0 = false) as -> by (apply not_true_iff_false; by rewrite Qeq_bool_iff).
  simpl.
  destruct (clamp_sign (100 * (q + - p) / p)) as (v & -> & Hpos & Hneg).
  exists v. split; [done|]. split.
  - intros Hp. rewrite <- Hpos. split.
    + intros Hpq. apply Qlt_shift_div_l; [done | lra].
    + intros Hv. apply Qnot_le_lt. intros Hle.
      assert (100 * (q + - p) / p <= 0)%Q; [|lra].
      apply Qle_shift_div_r; [done | lra].
  - intros Hp. rewrite <- Hneg. split.
    + intros Hpq.
      assert (100 * (q + - p) / p == - (100 * (q + - p) / - p))%Q as Heq
        by (field; lra).
      assert (0 < 100 * (q + - p) / - p)%Q; [|lra].
      apply Qlt_shift_div_l; lra.
    + intros Hv. apply Qnot_le_lt. intros Hle.
      assert (100 * (q + - p) / p == (100 * (p + - q)) / - p)%Q as Heq
        by (field; lra).
      assert (0 <= (100 * (p + - q)) / - p)%Q; [|lra].
      apply Qle_shift_div_l; lra.
Qed.

Lemma count_nonzero_cons b m :
  count_nonzero (b :: m) = ((if b then 1 else 0) + count_nonzero m)%nat.
Proof.
  unfold count_nonzero. destruct b.
  - by rewrite filter_cons_True.
  - by rewrite filter_cons_False.
Qed.

Lemma fge_Fin q c : fge (Fin q) (Fin c) = Qle_bool c q.
Proof.
  unfold fge, fgt, feq, Qltb.
  destruct (Qle_bool c q) eqn:Hle, (Qle_bool q c) eqn:Hge, (Qeq_bool q c) eqn:Heq;
    simpl; try done; exfalso;
    rewrite ?Qle_bool_iff in *;
    repeat match goal with
    | H : Qle_bool _ _ = false |- _ =>
        apply not_true_iff_false in H; rewrite Qle_bool_iff in H
    | H : Qeq_bool _ _ = false |- _ =>
        apply not_true_iff_false in H; rewrite Qeq_bool_iff in H
    | H : Qeq_bool _ _ = true |- _ => apply Qeq_bool_iff in H
    end; lra.
Qed.

(** The class of one value: exactly one of the seven counters takes it. *)
Lemma one_class (v : float) :
  let m := negb (isnan v) && negb (isinf v) in
  ((if negb (isnan v) then 1 else 0) =
   (if isinf v && flt v (Fin 0) then 1 else 0) +
   (if m && flt v (Fin (-45)) then 1 else 0) +
   (if m && fge v (Fin (-45)) && flt v (Fin (-15)) then 1 else 0) +
   (if m && fge v (Fin (-15)) && flt v (Fin 15) then 1 else 0) +
   (if m && fge v (Fin 15) && flt v (Fin 45) then 1 else 0) +
   (if m && fge v (Fin 45) then 1 else 0) +
   (if feq v PInf then 1 else 0))%nat.
Proof.
  destruct v as [q| | |]; try done. cbn [isnan isinf negb andb feq].
  rewrite !fge_Fin. unfold flt, fgt, Qltb.
  destruct (Qle_bool (-45) q) eqn:H1, (Qle_bool (-15) q) eqn:H2,
           (Qle_bool 15 q) eqn:H3, (Qle_bool 45 q) eqn:H4; simpl; try done;
    exfalso;
    repeat match goal with
    | H : Qle_bool _ _ = false |- _ =>
        apply not_true_iff_false in H; rewrite Qle_bool_iff in H
    | H : Qle_bool _ _ = true |- _ => apply Qle_bool_iff in H
    end; lra.
Qed.

(** X15.  The classes of the legend partition the data: the six counts
    (clouds, the five classes of change) and the count of +inf add up to the
    count of values that are not NaN. *)
Theorem legend_classes_partition data :
  let c := count_legend data in
  (clouds_count c + sign_degr_count c + degr_count c + min_change_count c
   + impr_count c + sign_impr_count c
   + count_nonzero ((fun v => feq v PInf) <$> data))%nat
  = all_count c.
Proof.
  induction data as [|v data IH]; [done|].
  unfold count_legend in *. cbn [all_count clouds_count sign_degr_count degr_count
    min_change_count impr_count sign_impr_count] in *.
  cbn [fmap list_fmap zip_with]. rewrite !count_nonzero_cons.
  pose proof (one_class v) as Hv. cbv zeta in Hv, IH.
  change (list_fmap float bool) with (@fmap list _ float bool) in *.
  lia.
Qed.

Lemma count_nonzero_0 (m : list bool) :
  count_nonzero m = 0%nat ↔ Forall (fun b => b = false) m.
Proof.
  induction m as [|b m IH]; [done|]. rewrite count_nonzero_cons, Forall_cons.
  destruct b; [split; [lia | by intros [? _]]|]. rewrite <- IH. simpl. tauto.
Qed.


Lemma dynamics_pixel_never_inf b1 b2 : isinf (dynamics_pixel_spec b1 b2) = false.
Proof.
  unfold dynamics_pixel_spec.
  destruct (feq b1 _ || feq b2 _); [done|].
  destruct (isnan b1 || isnan b2); [done|].
  set (v := fdiv _ _). destruct (isnan v) eqn:Hnan.
  - by destruct v.
  - by destruct (clamp_in_range v Hnan) as (q & -> & _).
Qed.

Lemma count_nonzero_le (m1 m2 : list bool) :
  Forall2 (fun a b => a = true → b = true) m1 m2 →
  (count_nonzero m1 <= count_nonzero m2)%nat.
Proof.
  induction 1 as [|a b m1 m2 Hab _ IH]; [done|].
  rewrite !count_nonzero_cons. destruct a, b; try lia; by specialize (Hab eq_refl).
Qed.

(** X17.  On a raster written by [process_ndvi_dynamics] the legend counts no
    clouds: its cloud class takes -inf only, and every pixel with the cloud
    sentinel -999 is counted as a significant degradation. *)
Theorem legend_counts_clouds_as_degradation b1_data b2_data b3 :
  process_ndvi_dynamics b1_data b2_data = Ok b3 →
  clouds_count (count_legend b3) = 0%nat ∧
  (count_nonzero ((fun v => feq v (Fin (-999))) <$> b3)
   <= sign_degr_count (count_legend b3))%nat.
Proof.
  intros [Hlen ->]%process_ndvi_dynamics_Ok_inv.
  set (b3 := zip_with dynamics_pixel_spec b1_data b2_data).
  assert (Forall (fun v => isinf v = false) b3) as Hfin.
  { apply Forall_lookup. intros i v. unfold b3. rewrite lookup_zip_with.
    destruct (b1_data !! i); [|done]. destruct (b2_data !! i); [|done].
    simpl. intros [= <-]. apply dynamics_pixel_never_inf. }
  clearbody b3. unfold count_legend. cbn [clouds_count sign_degr_count]. split.
  - apply count_nonzero_0. induction Hfin as [|v l Hv _ IH]; [done|].
    cbn [fmap list_fmap zip_with]. constructor; [by rewrite Hv | exact IH].
  - apply count_nonzero_le. clear Hfin.
    induction b3 as [|v l IH]; [constructor|].
    cbn [fmap list_fmap zip_with]. constructor; [|exact IH].
    destruct v as [q| | |]; try done. simpl.
    intros Hq%Qeq_bool_iff. unfold Qltb.
    apply negb_true_iff, not_true_iff_false. intros Hle%Qle_bool_iff. lra.
Qed.

Section CloudMaskExtras.

Variable apply_mask : list float → list bool → float → result (list float).

(** X14.  For two bands that agree in size, an exception of the cloud-mask
    step, raised by [cmf.read(1)] or by [apply_mask], never leaves
    [process_ndvi]: the NDVI is then written unmasked.  A cloud-mask file
    that cannot be opened is another matter: its exception leaves
    [process_ndvi], and nothing is written. *)
Theorem process_ndvi_survives_mask_errors svi01 svi02 :
  length svi01 = length svi02 →
  let v := zip_with ndvi_pixel svi01 svi02 in
  (∀ e, process_ndvi apply_mask svi01 svi02 (MaskOpened (Err e)) = Ok v) ∧
  (∀ cm e,
      apply_mask v ((fun c => feq c (Fin 4)) <$> cm) (Fin (-2)) = Err e →
      process_ndvi apply_mask svi01 svi02 (MaskOpened (Ok cm)) = Ok v) ∧
  (∀ cm masked,
      apply_mask v ((fun c => feq c (Fin 4)) <$> cm) (Fin (-2)) = Ok masked →
      process_ndvi apply_mask svi01 svi02 (MaskOpened (Ok cm)) = Ok masked) ∧
  (∀ e, process_ndvi apply_mask svi01 svi02 (MaskUnopenable e) = Err e) ∧
  process_ndvi apply_mask svi01 svi02 NoMaskFile = Ok v.
Proof.
  intros Hlen v. unfold process_ndvi.
  rewrite ndvi_pointwise by done. cbn [mbind result_bind]. fold v.
  repeat split; try done.
  - intros cm e ->. done.
  - intros cm masked ->. done.
Qed.

End CloudMaskExtras.

(** ** Batch driver *)

Section DriverExtras.

Variable process_fileset_out : ViirsFileSet → result string.
Variable ndvi_of_composite : string → ViirsFileSet → ndvi_step.
Variable find : GDALViirsDB → list ViirsFileSet.
Variable now : Q.

Local Abbreviation outcome := (fileset_outcome process_fileset_out ndvi_of_composite).
Local Abbreviation pf := (_process_fileset process_fileset_out ndvi_of_composite).
Local Abbreviation each := (process_each process_fileset_out ndvi_of_composite).
Local Abbreviation run :=
  (process_recent_files process_fileset_out ndvi_of_composite find now).
Local Abbreviation ev_of :=
  (event_of process_fileset_out ndvi_of_composite).
Local Abbreviation events :=
  (run_events process_fileset_out ndvi_of_composite find now).

(** What one call of [_process_fileset] does to the store. *)
Lemma process_fileset_store fileset self :
  (pf fileset self).2 = outcome fileset ∧
  persistence (pf fileset self).1
  = match outcome fileset with
    | None => add_fileset fileset (persistence self)
    | Some _ => persistence self
    end.
Proof.
  unfold _process_fileset, fileset_outcome.
  destruct (process_fileset_out fileset) as [processed|e]; [|done].
  case_bool_decide; [|done].
  by destruct (ndvi_of_composite processed fileset) as [e|[u|e]].
Qed.

Lemma maybe_log_store (b : bool) ev self :
  persistence (if b then emit ev self else self) = persistence self.
Proof. by destruct b. Qed.

Lemma each_all_succeed todo self :
  (∀ p, p ∈ todo → outcome p = None) →
  (each todo self).2 = true ∧
  persistence (each todo self).1
  = {| filesets := list_to_set (fileset_key <$> todo) ∪ filesets (persistence self);
       meta := meta (persistence self) |}.
Proof.
  revert self. induction todo as [|f todo IH]; intros self Hok.
  - simpl. split; [done|]. destruct (persistence self) as [fs m]. simpl.
    f_equal. by rewrite (left_id_L ∅ (∪)).
  - cbn [process_each].
    set (self1 := if has_fileset _ _ then _ else _).
    destruct (process_fileset_store f self1) as [Hout Hdb].
    rewrite (Hok f) in Hout, Hdb by apply list_elem_of_here.
    destruct (pf f self1) as [self2 o]. simpl in Hout, Hdb. subst o.
    destruct (IH self2) as [Hflag Hstore].
    { intros p Hp. by apply Hok, list_elem_of_further. }
    split; [done|]. rewrite Hstore, Hdb. unfold self1. rewrite maybe_log_store.
    unfold add_fileset. simpl. f_equal.
    by rewrite (assoc_L (∪)), (comm_L (∪) (list_to_set _) {[_]}).
Qed.

Lemma each_aborts pre f post e self :
  (∀ p, p ∈ pre → outcome p = None) → outcome f = Some e →
  (each (pre ++ f :: post) self).2 = false ∧
  persistence (each (pre ++ f :: post) self).1
  = {| filesets := list_to_set (fileset_key <$> pre) ∪ filesets (persistence self);
       meta := meta (persistence self) |} ∧
  last (trace (each (pre ++ f :: post) self).1) = Some (LogException e).
Proof.
  revert self. induction pre as [|p pre IH]; intros self Hok Hf.
  - cbn [app process_each].
    set (self1 := if has_fileset _ _ then _ else _).
    destruct (process_fileset_store f self1) as [Hout Hdb].
    rewrite Hf in Hout, Hdb.
    destruct (pf f self1) as [self2 o]. simpl in Hout, Hdb. subst o. simpl.
    split; [done|]. split; [|apply last_snoc].
    rewrite Hdb. unfold self1. rewrite maybe_log_store.
    destruct (persistence self) as [fs m]. simpl. f_equal.
    by rewrite (left_id_L ∅ (∪)).
  - cbn [app process_each].
    set (self1 := if has_fileset _ _ then _ else _).
    destruct (process_fileset_store p self1) as [Hout Hdb].
    rewrite (Hok p) in Hout, Hdb by apply list_elem_of_here.
    destruct (pf p self1) as [self2 o]. simpl in Hout, Hdb. subst o.
    destruct (IH self2) as (Hflag & Hstore & Hlast); [|done|].
    { intros q Hq. by apply Hok, list_elem_of_further. }
    split; [done|]. split; [|done].
    rewrite Hstore, Hdb. unfold self1. rewrite maybe_log_store.
    unfold add_fileset. simpl. f_equal.
    by rewrite (assoc_L (∪)), (comm_L (∪) (list_to_set _) {[_]}).
Qed.

Lemma found_log_store self :
  persistence (if bool_decide (0 < length (find (persistence self)))%nat
               then emit (LogFound (length (find (persistence self)))) self
               else emit LogNothingFound self) = persistence self.
Proof. by case_bool_decide. Qed.

Lemma run_all_succeed self :
  (∀ p, p ∈ find (persistence self) → outcome p = None) →
  filesets (persistence (run self))
  = list_to_set (fileset_key <$> find (persistence self))
    ∪ filesets (persistence self) ∧
  (∀ p, p ∈ find (persistence self) →
        has_fileset (persistence (run self)) p = true) ∧
  meta (persistence (run self))
  = <["last_check_time" := now]> (meta (persistence self)).
Proof.
  intros Hok. unfold process_recent_files.
  set (self0 := if bool_decide _ then _ else _).
  destruct (each_all_succeed (find (persistence self)) self0 Hok) as [Hflag Hstore].
  destruct (each _ self0) as [self1 flag]. simpl in Hflag, Hstore. subst flag.
  unfold _set_last_check_time, on_persistence, set_meta. simpl.
  rewrite Hstore. unfold self0. rewrite found_log_store. simpl.
  split; [done|]. split; [|done].
  intros p Hp. unfold has_fileset. simpl. apply bool_decide_eq_true.
  apply elem_of_union_l, elem_of_list_to_set, list_elem_of_fmap. eauto.
Qed.

(** X18.  When no file set raises, [process_recent_files] leaves every file
    set it found recorded in the store, adds nothing else to it, and sets
    [last_check_time] to the current time. *)
Theorem successful_run_records_everything self :
  (∀ p, p ∈ find (persistence self) → outcome p = None) →
  filesets (persistence (run self))
  = list_to_set (fileset_key <$> find (persistence self))
    ∪ filesets (persistence self) ∧
  (∀ p, p ∈ find (persistence self) →
        has_fileset (persistence (run self)) p = true) ∧
  meta (persistence (run self))
  = <["last_check_time" := now]> (meta (persistence self)).
Proof. exact (run_all_succeed self). Qed.

Lemma run_aborts self pre f post e :
  find (persistence self) = pre ++ f :: post →
  (∀ p, p ∈ pre → outcome p = None) → outcome f = Some e →
  meta (persistence (run self)) = meta (persistence self) ∧
  filesets (persistence (run self))
  = list_to_set (fileset_key <$> pre) ∪ filesets (persistence self) ∧
  last (trace (run self)) = Some (LogException e).
Proof.
  intros Hfound Hok Hf. unfold process_recent_files. rewrite Hfound.
  set (self0 := if bool_decide _ then _ else _).
  destruct (each_aborts pre f post e self0 Hok Hf) as (Hflag & Hstore & Hlast).
  destruct (each _ self0) as [self1 flag]. simpl in Hflag, Hstore, Hlast. subst flag.
  rewrite Hstore. unfold self0. simpl.
  assert (persistence (if bool_decide (0 < length (pre ++ f :: post))%nat
                       then emit (LogFound (length (pre ++ f :: post))) self
                       else emit LogNothingFound self) = persistence self) as ->
    by (by case_bool_decide).
  done.
Qed.

(** X19.  When a file set raises, [process_recent_files] leaves the metadata
    of the store (with [last_check_time]) as it was, has recorded exactly the
    file sets before the failing one, and ends with the log record of the
    exception. *)
Theorem aborted_run_keeps_last_check_time self pre f post e :
  find (persistence self) = pre ++ f :: post →
  (∀ p, p ∈ pre → outcome p = None) → outcome f = Some e →
  meta (persistence (run self)) = meta (persistence self) ∧
  filesets (persistence (run self))
  = list_to_set (fileset_key <$> pre) ∪ filesets (persistence self) ∧
  last (trace (run self)) = Some (LogException e).
Proof. exact (run_aborts self pre f post e). Qed.

Lemma process_fileset_new_events f self :
  ∃ new, trace (pf f self).1 = trace self ++ new ∧ Forall (ev_of f) new.
Proof.
  unfold _process_fileset, event_of.
  destruct (process_fileset_out f) as [processed|e] eqn:Hout; simpl.
  - case_bool_decide as Hband; simpl.
    + destruct (ndvi_of_composite processed f) as [e|outcome]; simpl.
      * exists [CallProcessFilesetOut f]. split; [done|].
        apply Forall_cons. split; [right; by left | constructor].
      * exists [CallProcessFilesetOut f; CallProcessNdvi f]. split.
        -- destruct outcome; simpl; by rewrite <- app_assoc.
        -- apply Forall_cons. split; [right; by left|].
           apply Forall_cons. split; [|constructor].
           right. right. left. eauto.
    + exists [CallProcessFilesetOut f]. split; [done|].
      apply Forall_cons. split; [right; by left | constructor].
  - exists [CallProcessFilesetOut f]. split; [done|].
    apply Forall_cons. split; [right; by left | constructor].
Qed.

Lemma each_new_events todo self :
  ∃ new, trace (each todo self).1 = trace self ++ new ∧
         Forall (fun ev => ∃ f, f ∈ todo ∧ ev_of f ev) new.
Proof.
  revert self. induction todo as [|f todo IH]; intros self.
  { exists []. split; [by rewrite app_nil_r | constructor]. }
  cbn [process_each].
  set (self1 := if has_fileset _ _ then _ else _).
  assert (∃ l0, trace self1 = trace self ++ l0 ∧ Forall (ev_of f) l0)
    as (l0 & Hl0 & Hev0).
  { unfold self1. destruct (has_fileset _ _).
    - exists [LogAlreadyPresent (name (geoloc_file f))]. split; [done|].
      apply Forall_cons. split; [by left | constructor].
    - exists []. split; [by rewrite app_nil_r | constructor]. }
  destruct (process_fileset_new_events f self1) as (l1 & Hl1 & Hev1).
  destruct (process_fileset_store f self1) as [Hout _].
  assert (∀ l, Forall (ev_of f) l →
               Forall (fun ev => ∃ f', f' ∈ f :: todo ∧ ev_of f' ev) l) as Hlift.
  { intros l Hl. eapply Forall_impl; [exact Hl|]. intros ev Hev.
    exists f. split; [apply list_elem_of_here | done]. }
  destruct (pf f self1) as [self2 [e|]]; simpl in *.
  - exists (l0 ++ l1 ++ [LogException e]). split.
    + by rewrite Hl1, Hl0, <- !app_assoc.
    + rewrite !Forall_app. repeat split; auto. apply Hlift.
      apply Forall_cons. split; [|constructor].
      right. right. right. by exists e.
  - destruct (IH self2) as (new & Hnew & Hevn).
    exists (l0 ++ l1 ++ new). split.
    + by rewrite Hnew, Hl1, Hl0, <- !app_assoc.
    + rewrite !Forall_app. repeat split; auto.
      eapply Forall_impl; [exact Hevn|]. intros ev (f' & Hf' & Hev).
      exists f'. split; [by apply list_elem_of_further | done].
Qed.

(** X20.  During a run [process_ndvi] is called only for a file set that was
    found, whose geolocation file is of band I, and whose composite was
    written. *)
Theorem ndvi_only_for_I_band_composites self fileset :
  CallProcessNdvi fileset
    ∈ run_events process_fileset_out ndvi_of_composite find now self →
  fileset ∈ find (persistence self) ∧
  band (geoloc_file fileset) = "I" ∧
  ∃ processed, process_fileset_out fileset = Ok processed.
Proof.
  unfold run_events, process_recent_files.
  set (self0 := if bool_decide _ then _ else _).
  assert (∃ ev0, trace self0 = trace self ++ [ev0] ∧
                 ev0 ≠ CallProcessNdvi fileset) as (ev0 & Hself0 & Hev0).
  { unfold self0. case_bool_decide; eexists; by split. }
  destruct (each_new_events (find (persistence self)) self0) as (new & Hnew & Hev).
  assert (trace (match each (find (persistence self)) self0 with
                 | (s, true) => _set_last_check_time now s
                 | (s, false) => s
                 end) = trace self ++ ev0 :: new) as ->.
  { destruct (each _ _) as [s [|]]; simpl in *;
      by rewrite Hnew, Hself0, <- app_assoc. }
  rewrite drop_app_length. intros [Heq|Hin]%elem_of_cons; [congruence|].
  rewrite Forall_forall in Hev. destruct (Hev _ Hin) as (f & Hf & Hof).
  destruct Hof as [Hof|[Hof|[(Hof & Hband & Hout)|(e & Hof & _)]]]; try done.
  injection Hof as ->. done.
Qed.

End DriverExtras.

Lemma concat_sublist {A} (l1 l2 : list (list A)) :
  l1 `sublist_of` l2 → concat l1 `sublist_of` concat l2.
Proof.
  induction 1 as [|x l1 l2 _ IH|x l1 l2 _ IH]; simpl.
  - constructor.
  - by apply sublist_app.
  - by apply sublist_inserts_l.
Qed.

Section DiscoveryProperties.

Variable search_dirs : list string.
Variable expand : string → string.
Variable getmtime : string → Q.
Variable lister : string → list ViirsFileSet.

Local Abbreviation all_filesets :=
  (get_all_filesets search_dirs expand getmtime lister).
Local Abbreviation recent_filesets :=
  (find_filesets search_dirs expand getmtime lister).

Lemma find_filesets_by_last_check db ts :
  meta db !! "last_check_time" = ts →
  recent_filesets db
  = concat ((fun d => lister (expand d)) <$>
            filter (fun d => Is_true (Qle_bool (from_option id 0%Q ts) (getmtime d)))
              (expand <$> search_dirs)).
Proof. intros <-. reflexivity. Qed.

Lemma find_filesets_sublist db :
  recent_filesets db `sublist_of` all_filesets db ∧
  ((∀ d, d ∈ search_dirs →
         (get_meta "last_check_time" 0 db <= getmtime (expand d))%Q) →
   recent_filesets db = all_filesets db).
Proof.
  unfold find_filesets, get_all_filesets, _find_filesets. simpl. split.
  - apply concat_sublist, fmap_sublist, sublist_filter.
  - intros Hall. do 2 f_equal.
    induction search_dirs as [|d dirs IH]; [done|].
    rewrite fmap_cons, filter_cons_True.
    + f_equal. apply IH. intros d' Hd'. by apply Hall, list_elem_of_further.
    + apply Is_true_true, Qle_bool_iff, Hall, list_elem_of_here.
Qed.

(** X21.  What [find_filesets] returns is a sub-list of what
    [get_all_filesets] returns, in the same order; the two agree when no
    directory was last modified before [last_check_time]. *)
Theorem find_filesets_within_all db :
  recent_filesets db `sublist_of` all_filesets db ∧
  ((∀ d, d ∈ search_dirs →
         (get_meta "last_check_time" 0 db <= getmtime (expand d))%Q) →
   recent_filesets db = all_filesets db).
Proof. exact (find_filesets_sublist db). Qed.

(** X22.  After [reset] the store records no file set and no
    [last_check_time], so that (modification times not being negative)
    [find_filesets] finds every file set again. *)
Theorem reset_forgets_everything self :
  filesets (persistence (reset self)) = ∅ ∧
  (∀ fileset, has_fileset (persistence (reset self)) fileset = false) ∧
  get_meta "last_check_time" 0 (persistence (reset self)) = 0%Q ∧
  ((∀ d, d ∈ search_dirs → (0 <= getmtime (expand d))%Q) →
   recent_filesets (persistence (reset self)) = all_filesets (persistence (reset self))).
Proof.
  assert (get_meta "last_check_time" 0 (persistence (reset self)) = 0%Q) as Hmeta.
  { unfold get_meta, reset, on_persistence, reset_filesets, delete_meta. simpl.
    by rewrite lookup_delete_eq. }
  split; [done|]. split; [|split; [done|]].
  - intros fileset. unfold has_fileset. simpl. by apply bool_decide_eq_false_2.
  - intros Hpos. apply find_filesets_sublist. intros d Hd. rewrite Hmeta. by apply Hpos.
Qed.

Variable process_fileset_out : ViirsFileSet → result string.
Variable ndvi_of_composite : string → ViirsFileSet → ndvi_step.
Variable now : Q.

Local Abbreviation outcome := (fileset_outcome process_fileset_out ndvi_of_composite).
Local Abbreviation run :=
  (process_recent_files process_fileset_out ndvi_of_composite recent_filesets now).

(** X23.  After a run in which no file set raised, and with no directory
    modified since, [find_filesets] finds nothing; after a run that a file set
    aborted, it finds the same file sets again, those processed before the
    failure included. *)
Theorem next_run_after_success_and_after_abort self :
  let found := find_filesets search_dirs expand getmtime lister in
  let after :=
    process_recent_files process_fileset_out ndvi_of_composite found now self in
  ((∀ p, p ∈ found (persistence self) →
         fileset_outcome process_fileset_out ndvi_of_composite p = None) →
   (∀ d, d ∈ search_dirs → (getmtime (expand d) < now)%Q) →
   found (persistence after) = []) ∧
  (∀ pre f post e,
      found (persistence self) = pre ++ f :: post →
      (∀ p, p ∈ pre →
            fileset_outcome process_fileset_out ndvi_of_composite p = None) →
      fileset_outcome process_fileset_out ndvi_of_composite f = Some e →
      found (persistence after) = found (persistence self)).
Proof.
  cbv zeta. split.
  - intros Hok Hold.
    destruct (run_all_succeed process_fileset_out ndvi_of_composite
                recent_filesets now self Hok) as (_ & _ & Hmeta).
    rewrite (find_filesets_by_last_check _ (Some now))
      by (rewrite Hmeta; apply lookup_insert_eq).
    simpl. replace (filter _ _) with (@nil string); [done|].
    symmetry. clear -Hold. induction search_dirs as [|d dirs IH]; [done|].
    rewrite fmap_cons, filter_cons_False.
    + apply IH. intros d' Hd'. by apply Hold, list_elem_of_further.
    + intros Hle%Is_true_true%Qle_bool_iff.
      specialize (Hold d (list_elem_of_here _ _)). lra.
  - intros pre f post e Hfound Hok Hf.
    destruct (run_aborts process_fileset_out ndvi_of_composite
                recent_filesets now self pre f post e Hfound Hok Hf) as (Hmeta & _).
    rewrite (find_filesets_by_last_check (persistence (run self)) _ eq_refl).
    rewrite (find_filesets_by_last_check (persistence self) _ eq_refl).
    by rewrite Hmeta.
Qed.

End DiscoveryProperties.

(** * Worked examples *)

(** ** GeolocationIndexer *)

(** The three-sample swath fills its 2 x 3 grid from corner to corner. *)
Lemma geoloc_grid_is_tight_witness :
  0 ∈ y_index swath_index ∧ 0 ∈ x_index swath_index ∧
  (out_image_shape swath_index).1 - 1 ∈ y_index swath_index ∧
  (out_image_shape swath_index).2 - 1 ∈ x_index swath_index.
Proof.
  destruct (geoloc_grid_is_tight cylindrical swath_lat swath_lon 2000 swath_index)
    as (Hy0 & Hx0 & Hy & Hx).
  - vm_compute. reflexivity.
  - split; [exact Hy0|]. split; [exact Hx0|]. split.
    + apply Hy. vm_compute. reflexivity.
    + apply Hx. vm_compute. reflexivity.
Defined.

(** Without the bound on the span the last row can stay empty: for the two
    samples 1e19 m and -1 m north at one metre to the pixel, the height
    wraps around to -2^63, and no sample lies in row -2^63 - 1. *)
Lemma last_row_stays_empty_at_full_span :
  ∃ g, process_geoloc_file planar [Fin 10000000000000000000; Fin (-1)]
         [Fin 0; Fin 0] 1 = Ok g ∧
       (out_image_shape g).1 - 1 ∉ y_index g.
Proof.
  eexists. split; [vm_compute; reflexivity|].
  cbn [out_image_shape y_index fst].
  rewrite !elem_of_cons. intros [H|[H|H]]; [done | done |].
  by apply not_elem_of_nil in H.
Qed.

(** The sample at 83 degrees east does not lie right of the one at 83.04. *)
Lemma geoloc_preserves_order_witness :
  process_geoloc_file cylindrical swath_lat swath_lon 2000 = Ok swath_index ∧
  ∀ ci cj,
    x_index swath_index !! 0%nat = Some ci →
    x_index swath_index !! 1%nat = Some cj → ci <= cj.
Proof.
  destruct (geoloc_preserves_order cylindrical swath_lat swath_lon 2000
              swath_index) as [Hx _].
  - vm_compute. reflexivity.
  - reflexivity.
  - split; [vm_compute; reflexivity|].
    intros ci cj.
    apply (Hx ltac:(vm_compute; reflexivity)
              0%nat 1%nat 8300000%Q (830400000 # 100)%Q).
    + vm_compute. reflexivity.
    + vm_compute. reflexivity.
    + vm_compute. reflexivity.
    + vm_compute. reflexivity.
    + unfold Qle. simpl. lia.
Defined.

(** The westernmost sample of the swath lies in column 0, the northernmost
    in the last row of the index. *)
Lemma geoloc_anchors_match_grid_witness :
  x_index swath_index !! 0%nat = Some 0 ∧
  y_index swath_index !! 1%nat = Some ((out_image_shape swath_index).1 - 1).
Proof.
  destruct (geoloc_anchors_match_grid cylindrical swath_lat swath_lon 2000
              swath_index) as (Hx & Hy & _).
  - vm_compute. reflexivity.
  - reflexivity.
  - split.
    + apply (Hx ltac:(vm_compute; reflexivity) 0%nat (Fin 8300000));
        vm_compute; reflexivity.
    + apply (Hy ltac:(vm_compute; reflexivity) ltac:(vm_compute; reflexivity)
                1%nat (Fin (550200000 # 100))); vm_compute; reflexivity.
Defined.

(** ** BandRasterizer *)

(** The band SVI01 is rasterized on the 2 x 2 index, so it is ready. *)
Lemma process_band_file_requires_witness : band_ready svi01 grid_index.
Proof.
  apply (process_band_file_requires viirs_ND_OBPT viirs_ND_NA no_fill
           svi01 grid_index (Fin 60000) svi01_grid).
  vm_compute. reflexivity.
Defined.

Lemma band_nodata_is_nan_witness :
  ∃ f, file svi01 = Some f ∧
    Forall (fun v => isnan v = true ∨
                     ∃ c, v = corrected f c ∧
                          fgt c (Fin 60000) = false ∧ feq c (Fin 0) = false)
           (data svi01_grid) ∧
    (factors f = None →
     Forall (fun v => fgt v (Fin 60000) = false ∧ feq v (Fin 0) = false)
            (data svi01_grid)).
Proof.
  apply (band_nodata_is_nan viirs_ND_OBPT viirs_ND_NA no_fill svi01 grid_index).
  vm_compute. reflexivity.
Defined.

Lemma band_grid_has_index_shape_witness :
  shape svi01_grid = (2, 2)%nat ∧ well_shaped svi01_grid.
Proof.
  apply (band_grid_has_index_shape viirs_ND_OBPT viirs_ND_NA no_fill svi01
           grid_index (Fin 60000)).
  - intros img m s d. split; reflexivity.
  - vm_compute. reflexivity.
Defined.

(** The second sample of SVI01, the count 200 at row 0 and column 1 of the
    index, is found corrected at row 1, column 1 of the grid. *)
Lemma band_sample_placement_witness :
  cell svi01_grid 1 1 = Some (corrected svi01_contents (Fin 200)).
Proof.
  apply (band_sample_placement viirs_ND_OBPT viirs_ND_NA no_fill svi01
           grid_index (Fin 60000) svi01_grid svi01_contents
           [Fin 100; Fin 200; Fin 300; Fin 400] 1%nat 0%nat 1%nat (Fin 200)).
  - reflexivity.
  - reflexivity.
  - vm_compute. reflexivity.
  - reflexivity.
  - vm_compute. reflexivity.
  - exists 0, 1. repeat split.
  - reflexivity.
  - intros k' Hk (y & x & Hy & Hx & Hr & Hc).
    destruct k' as [|[|[|[|k']]]]; simpl in Hy, Hx; try lia;
      simplify_eq; vm_compute in Hr; vm_compute in Hc; simplify_eq.
  - reflexivity.
  - reflexivity.
  - reflexivity.
Defined.

(** ** CompositeAssembler *)

(** An I-band and an M-band in one list: the assertion on the band type. *)
Lemma band_exceptions_never_escape_witness :
  _process_band_files rasterize grid_index mixed_bands = Err AssertionError.
Proof.
  apply (band_exceptions_never_escape rasterize grid_index mixed_bands).
  right. vm_compute. discriminate.
Defined.

(** ** The pipeline *)

(** A file set without band files is invalid data, also when its
    geolocation file cannot be opened; with band files, the unreadable
    geolocation file makes it a corrupted one. *)
Lemma process_fileset_errors_witness :
  run_pipeline night_pass None false = Err InvalidData ∧
  run_pipeline pass_fileset None false = Err CorruptedFile.
Proof.
  split.
  - apply (process_fileset_errors cylindrical viirs_ND_OBPT viirs_ND_NA no_fill
             keep_all night_pass None 2000).
    reflexivity.
  - apply (process_fileset_errors cylindrical viirs_ND_OBPT viirs_ND_NA no_fill
             keep_all pass_fileset None 2000).
    + discriminate.
    + left. reflexivity.
Defined.

Lemma process_fileset_composite_witness :
  length pass_composite = length (band_files pass_fileset) ∧
  ∃ h w, (2 <= h)%nat ∧ (2 <= w)%nat ∧
         Forall (fun b => shape b = (h, w) ∧ well_shaped b) pass_composite.
Proof.
  apply (process_fileset_composite cylindrical viirs_ND_OBPT viirs_ND_NA
           no_fill keep_all pass_fileset (Some pass_contents) 2000).
  - intros img m s d. split; reflexivity.
  - vm_compute. reflexivity.
Defined.

(** The pass of three I-bands gives a composite, so one of its bands is
    ready on the index of its swath. *)
Lemma process_fileset_requires_witness :
  band_files pass_fileset ≠ [] ∧
  Forall (fun b => is_Some (file b)) (band_files pass_fileset) ∧
  ∃ lat lon index,
    read_geoloc (geoloc_file pass_fileset) (Some pass_contents) = Ok (lat, lon) ∧
    process_geoloc_file cylindrical lat lon 2000 = Ok index ∧
    length (remove_dups (band <$> band_files pass_fileset)) = 1%nat ∧
    ∃ b a, b ∈ band_files pass_fileset ∧ rasterize b index = Ok a ∧
           band_ready b index.
Proof.
  apply (process_fileset_requires cylindrical viirs_ND_OBPT viirs_ND_NA
           no_fill keep_all pass_fileset (Some pass_contents) 2000 false
           pass_composite).
  vm_compute. reflexivity.
Defined.

(** ** NDVI and its dynamics *)

Lemma dynamics_cloud_sentinel_is_unambiguous_witness :
  length epoch_dynamics = length epoch1 ∧
  ∀ i b1 b2 v,
    epoch1 !! i = Some b1 → epoch2 !! i = Some b2 →
    epoch_dynamics !! i = Some v →
    (feq v (Fin (-999)) = true ↔
     feq b1 (Fin (-2)) = true ∨ feq b2 (Fin (-2)) = true).
Proof.
  apply (dynamics_cloud_sentinel_is_unambiguous epoch1 epoch2).
  vm_compute. reflexivity.
Defined.

(** From 0.5 to 0.6 over a positive baseline: a positive value. *)
Lemma dynamics_sign_follows_baseline_witness :
  ∃ v, epoch_dynamics !! 3%nat = Some (Fin v) ∧
       ((0 < 0.5)%Q → ((0.5 < 0.6)%Q ↔ (0 < v)%Q)) ∧
       ((0.5 < 0)%Q → ((0.5 < 0.6)%Q ↔ (v < 0)%Q)).
Proof.
  apply (dynamics_sign_follows_baseline epoch1 epoch2 epoch_dynamics).
  - vm_compute. reflexivity.
  - reflexivity.
  - reflexivity.
  - unfold Qeq. simpl. lia.
  - unfold Qeq. simpl. lia.
  - unfold Qeq. simpl. lia.
Defined.

Lemma legend_counts_clouds_as_degradation_witness :
  clouds_count (count_legend epoch_dynamics) = 0%nat ∧
  (count_nonzero ((fun v => feq v (Fin (-999))) <$> epoch_dynamics)
   <= sign_degr_count (count_legend epoch_dynamics))%nat.
Proof.
  apply (legend_counts_clouds_as_degradation epoch1 epoch2).
  vm_compute. reflexivity.
Defined.


(** With a cloud-mask step that always fails, the NDVI of two pixels is
    written as computed. *)
Lemma process_ndvi_survives_mask_errors_witness :
  process_ndvi failing_mask [Fin 0.1; Fin 0.2] [Fin 0.3; Fin 0.5]
    (MaskOpened (Ok [Fin 4; Fin 0]))
  = Ok (zip_with ndvi_pixel [Fin 0.1; Fin 0.2] [Fin 0.3; Fin 0.5]) ∧
  process_ndvi failing_mask [Fin 0.1; Fin 0.2] [Fin 0.3; Fin 0.5]
    (MaskUnopenable RasterioIOError)
  = Err RasterioIOError.
Proof.
  destruct (process_ndvi_survives_mask_errors failing_mask
              [Fin 0.1; Fin 0.2] [Fin 0.3; Fin 0.5])
    as (_ & Hdropped & _ & Hraised & _).
  - reflexivity.
  - split.
    + apply (Hdropped [Fin 4; Fin 0] ValueError). reflexivity.
    + apply Hraised.
Defined.

(** ** The batch driver *)

Lemma successful_run_records_everything_witness :
  let after := process_recent_files all_composites_written ndvi_written
                 found_both 250 fresh_processor in
  filesets (persistence after)
  = list_to_set (fileset_key <$> [night_pass; day_pass])
    ∪ filesets (persistence fresh_processor) ∧
  (∀ p, p ∈ [night_pass; day_pass] → has_fileset (persistence after) p = true) ∧
  meta (persistence after)
  = <["last_check_time" := 250%Q]> (meta (persistence fresh_processor)).
Proof.
  apply (successful_run_records_everything all_composites_written ndvi_written
           found_both 250 fresh_processor).
  intros p _. unfold fileset_outcome, all_composites_written, ndvi_written.
  destruct (bool_decide (band (geoloc_file p) = "I")); reflexivity.
Defined.

Lemma aborted_run_keeps_last_check_time_witness :
  let after := process_recent_files first_file_corrupted ndvi_written
                 found_both 250 fresh_processor in
  meta (persistence after) = meta (persistence fresh_processor) ∧
  filesets (persistence after)
  = list_to_set (fileset_key <$> []) ∪ filesets (persistence fresh_processor) ∧
  last (trace after) = Some (LogException CorruptedFile).
Proof.
  apply (aborted_run_keeps_last_check_time first_file_corrupted ndvi_written
           found_both 250 fresh_processor [] night_pass [day_pass]
           CorruptedFile).
  - reflexivity.
  - intros p Hp. inversion Hp.
  - vm_compute. reflexivity.
Defined.

Lemma ndvi_only_for_I_band_composites_witness :
  day_pass ∈ found_both (persistence fresh_processor) ∧
  band (geoloc_file day_pass) = "I" ∧
  ∃ processed, all_composites_written day_pass = Ok processed.
Proof.
  apply (ndvi_only_for_I_band_composites all_composites_written ndvi_written
           found_both 250 fresh_processor day_pass).
  vm_compute.
  repeat (apply list_elem_of_here || apply list_elem_of_further).
Defined.

(** ** Discovery and reset *)

(** With a last check at time 200, only the directory changed at 300 is
    searched. *)
Lemma find_filesets_within_all_witness :
  find_filesets two_dirs no_expansion dir_mtime dir_filesets
    (persistence checked_at_200)
  `sublist_of`
  get_all_filesets two_dirs no_expansion dir_mtime dir_filesets
    (persistence checked_at_200).
Proof.
  apply (find_filesets_within_all two_dirs no_expansion dir_mtime dir_filesets
           (persistence checked_at_200)).
Defined.

(** After a reset both directories are searched again. *)
Lemma reset_forgets_everything_witness :
  find_filesets two_dirs no_expansion dir_mtime dir_filesets
    (persistence (reset checked_at_200))
  = [night_pass; day_pass].
Proof.
  destruct (reset_forgets_everything two_dirs no_expansion dir_mtime
              dir_filesets checked_at_200) as (_ & _ & _ & Hall).
  rewrite Hall; [reflexivity|].
  intros d _. unfold dir_mtime, no_expansion.
  destruct (bool_decide (d = "/data/old")); unfold Qle; simpl; lia.
Defined.

(** After a successful run at time 400 nothing is left to find. *)
Lemma next_run_after_success_and_after_abort_witness :
  find_filesets two_dirs no_expansion dir_mtime dir_filesets
    (persistence
       (process_recent_files all_composites_written ndvi_written
          (find_filesets two_dirs no_expansion dir_mtime dir_filesets) 400
          checked_at_200))
  = [].
Proof.
  apply (next_run_after_success_and_after_abort two_dirs no_expansion
           dir_mtime dir_filesets all_composites_written ndvi_written 400
           checked_at_200).
  - intros p _. unfold fileset_outcome, all_composites_written, ndvi_written.
    destruct (bool_decide (band (geoloc_file p) = "I")); reflexivity.
  - intros d _. unfold dir_mtime, no_expansion.
    destruct (bool_decide (d = "/data/old")); unfold Qlt; simpl; lia.
Defined.
